(** * GeoRAG: the retrieval core and the download counter

    A shallow embedding of [app.py], [build_index.py] and the location
    table of [extract_metadata.py].  Python objects are modelled as they
    are used by the programs: the records of the mapping as finite maps
    with string keys, the object of the stats file as a dict that keeps
    the order of its keys, the module-level lists as lists, the
    exceptions that can be raised as an error type, and the files under
    [data/] by what a reader finds in them. *)

From Stdlib Require Import ZArith QArith Qround Lia Lqa Ascii String SpecFloat.
From stdpp Require Import base option list gmap strings fin_maps sorting.

Close Scope Q_scope.
Local Open Scope Z_scope.

(** ** Exceptions and the state-and-exception monad *)

(** The Python exceptions the modelled code can raise. *)
Inductive exn : Type :=
  | JSONDecodeError     (* json.load on text that is not JSON *)
  | UnicodeDecodeError  (* reading a file whose bytes are not text *)
  | IndexError          (* tuple or list index out of range *)
  | KeyError            (* dict[key] on an absent key *)
  | TypeError           (* an operation the object does not support *)
  | AttributeError      (* a method the object does not have *)
  | RuntimeError        (* faiss.write_index could not write *)
  | OSError.            (* open, makedirs or a write failed; the class of
                           IsADirectoryError and PermissionError *)

Inductive result (A : Type) : Type :=
  | Ok (a : A)
  | Raise (e : exn).
Arguments Ok {A} a.
Arguments Raise {A} e.

(** A computation over a mutable world [S] that returns or raises. *)
Definition M (S A : Type) : Type := S → result A * S.

Definition ret {S A} (a : A) : M S A := λ s, (Ok a, s).
Definition raise {S A} (e : exn) : M S A := λ s, (Raise e, s).
Definition bind {S A B} (m : M S A) (k : A → M S B) : M S B :=
  λ s, match m s with
       | (Ok a, s') => k a s'
       | (Raise e, s') => (Raise e, s')
       end.
Definition get {S} : M S S := λ s, (Ok s, s).
Definition put {S} (s : S) : M S unit := λ _, (Ok tt, s).
Definition lift {S A} (r : result A) : M S A := λ s, (r, s).

(** stdpp's monadic notations [x ← m; k] and [m;; k] are used for it. *)
#[global] Instance M_ret {S} : MRet (M S) := λ A, @ret S A.
#[global] Instance M_bind {S} : MBind (M S) := λ A B k m, @bind S A B m k.

(** ** Decoded JSON values *)

Module JSON.

(** A value as [json.load] and [request.json] build it. A float is an
    IEEE double; an object is a [dict], which keeps its keys in the
    order of insertion. *)
#[local] Unset Elimination Schemes.
Inductive json : Type :=
  | JNull
  | JBool (b : bool)
  | JInt (n : Z)
  | JFloat (x : spec_float)
  | JStr (s : string)
  | JList (l : list json)
  | JObject (d : list (string * json)).
#[local] Set Elimination Schemes.

(** The items of a [dict] with string keys, oldest key first. *)
Abbreviation dict := (list (string * json)).

(** The value at [key], if the key is there. *)
Fixpoint dict_get (d : dict) (key : string) : option json :=
  match d with
  | [] => None
  | (k, v) :: d => if decide (k = key) then Some v else dict_get d key
  end.

(** [d[key] = v]: the value of a key that is there is replaced where the
    key stands; a new key is added at the end. *)
Fixpoint dict_set (d : dict) (key : string) (v : json) : dict :=
  match d with
  | [] => [(key, v)]
  | (k, u) :: d =>
      if decide (k = key) then (k, v) :: d else (k, u) :: dict_set d key v
  end.

(** The double [1.0]. *)
Definition float_one : spec_float := binary_normalize 53 1024 1 0 false.

End JSON.

(** ** The download counter ([app.py], lines 20-39) *)

Module Counter.
Import JSON.

(** What is at the path [data/download_stats.json]. *)
Inductive stats_file : Type :=
  | Absent          (* nothing: [os.path.exists] is false *)
  | Directory       (* a directory: it exists and [open] raises
                       IsADirectoryError, an OSError *)
  | Undecodable     (* a file whose bytes are not text *)
  | Unparseable     (* text that is not JSON: the empty text, a dump
                       that was cut *)
  | Json (v : json).  (* text that [json.load] decodes to [v] *)

(** [load_stats]: [{}] when the file does not exist, else [json.load],
    which returns whatever value the text denotes. *)
Definition load_stats : M stats_file json :=
  λ f, match f with
       | Absent => (Ok (JObject []), f)
       | Directory => (Raise OSError, f)
       | Undecodable => (Raise UnicodeDecodeError, f)
       | Unparseable => (Raise JSONDecodeError, f)
       | Json v => (Ok v, f)
       end.

(** [open(DOWNLOAD_STATS_FILE, "w")] creates or truncates the file: until
    something is written it holds the empty text, which is not JSON. *)
Definition open_w : M stats_file unit :=
  λ f, match f with
       | Directory => (Raise OSError, f)
       | _ => (Ok tt, Unparseable)
       end.

(** [json.dump(stats, f, indent=2)] followed by the close of the file:
    the text written decodes to [stats] again. *)
Definition json_dump (stats : json) : M stats_file unit :=
  put (Json stats).

Definition save_stats (stats : json) : M stats_file unit :=
  open_w;; json_dump stats.

(** [stats.get(key, default)]: only a dict has the method. *)
Definition get_or (stats : json) (key : string) (default : json)
    : result json :=
  match stats with
  | JObject d => Ok (from_option id default (dict_get d key))
  | _ => Raise AttributeError
  end.

(** [v + 1]: on an int, on a bool (an int in Python), on a float (in
    binary64 arithmetic); no other value of JSON can be added to an
    int. *)
Definition add_one (v : json) : result json :=
  match v with
  | JInt n => Ok (JInt (n + 1))
  | JBool b => Ok (JInt (Z.b2z b + 1))
  | JFloat x => Ok (JFloat (SFadd 53 1024 x float_one))
  | JNull | JStr _ | JList _ | JObject _ => Raise TypeError
  end.

(** [stats[key] = v] with a string key. *)
Definition setitem (stats : json) (key : string) (v : json) : result json :=
  match stats with
  | JObject d => Ok (JObject (dict_set d key v))
  | _ => Raise TypeError
  end.

(** [stats[key]] as an expression, with a string key. *)
Definition getitem (stats : json) (key : string) : result json :=
  match stats with
  | JObject d =>
      match dict_get d key with
      | Some v => Ok v
      | None => Raise KeyError
      end
  | _ => Raise TypeError
  end.

(** Line 37, [stats[filename] = stats.get(filename, 0) + 1]: the object
    that [stats] is afterwards. *)
Definition update (filename : string) (stats : json) : result json :=
  match get_or stats filename (JInt 0) with
  | Raise e => Raise e
  | Ok v =>
      match add_one v with
      | Raise e => Raise e
      | Ok v' => setitem stats filename v'
      end
  end.

(** [increment_download], run alone (the lock is free and is released on
    every exit, so it does not show in a sequential run). *)
Definition increment_download (filename : string) : M stats_file json :=
  stats ← load_stats;
  stats ← lift (update filename stats);
  save_stats stats;;
  lift (getitem stats filename).


(** The count a dict holds for a file id, an absent key counting 0. *)
Definition count (d : dict) (filename : string) : Z :=
  match dict_get d filename with
  | Some (JInt n) => n
  | _ => 0
  end.

(** [json.load] finds a value, or there is no file. *)
Definition parseable (fl : stats_file) : bool :=
  match fl with Absent | Json _ => true | _ => false end.

(** The items of the object a store file holds ([{}] when there is no
    file). *)
Definition stored (fl : stats_file) : dict :=
  match fl with Json (JObject d) => d | _ => [] end.

Definition is_int (v : json) : bool :=
  match v with JInt _ => true | _ => false end.

(** All the values of a dict are ints. *)
Definition ints (d : dict) : bool := forallb (λ kv, is_int kv.2) d.

(** A counter store as [save_stats] leaves it when it starts from none:
    no file, or an object whose values are ints. *)
Definition is_store (fl : stats_file) : bool :=
  match fl with
  | Absent => true
  | Json (JObject d) => ints d
  | _ => false
  end.

End Counter.

(** ** Concurrent calls of [increment_download] under [_stats_lock] *)

Module Threads.
Import JSON Counter.

(** Where a request thread stands inside [increment_download]. *)
Inductive pc : Type :=
  | AtLock                     (* before [with _stats_lock:] *)
  | AtLoad                     (* lock held, before load_stats() *)
  | AtUpdate (stats : json)    (* before stats[filename] = ... *)
  | AtOpen (stats : json)      (* save_stats: before open(.., "w") *)
  | AtDump (stats : json)      (* save_stats: before json.dump *)
  | AtReturn (stats : json)    (* before return stats[filename] *)
  | Returned (v : json)        (* lock released, value returned *)
  | Raised (e : exn).          (* lock released, exception raised *)

Record thread : Type := Thread { filename : string; at_pc : pc }.

(** The shared state: the stats file, [_stats_lock], the threads. *)
Record state : Type :=
  State { file : stats_file; locked : bool; threads : list thread }.

(** Leaving the [with] block, normally or by an exception, releases the
    lock. *)
Definition leave {A} (f : string) (r : result A * stats_file)
    (k : A → pc) (held : bool) : thread * stats_file * bool :=
  match r with
  | (Ok a, file') => (Thread f (k a), file', held)
  | (Raise e, file') => (Thread f (Raised e), file', false)
  end.

(** One atomic action of a thread; [None] when it is blocked on the lock
    or has finished. *)
Definition thread_step (t : thread) (fl : stats_file) (lk : bool)
    : option (thread * stats_file * bool) :=
  let f := filename t in
  match at_pc t with
  | AtLock => if lk then None else Some (Thread f AtLoad, fl, true)
  | AtLoad => Some (leave f (load_stats fl) AtUpdate lk)
  | AtUpdate stats => Some (leave f (lift (update f stats) fl) AtOpen lk)
  | AtOpen stats => Some (leave f (open_w fl) (λ _, AtDump stats) lk)
  | AtDump stats =>
      Some (leave f (json_dump stats fl) (λ _, AtReturn stats) lk)
  | AtReturn stats =>
      match getitem stats f with
      | Ok v => Some (Thread f (Returned v), fl, false)
      | Raise e => Some (Thread f (Raised e), fl, false)
      end
  | Returned _ | Raised _ => None
  end.

(** Any thread that can act may be scheduled next. *)
Inductive step : state → state → Prop :=
  | step_thread s i t t' file' locked' :
      threads s !! i = Some t →
      thread_step t (file s) (locked s) = Some (t', file', locked') →
      step s (State file' locked' (<[i := t']> (threads s))).

(** [n] requests for [filename] arrive at a store in state [fl]. *)
Definition init (fl : stats_file) (n : nat) (filename : string) : state :=
  State fl false (replicate n (Thread filename AtLock)).

Definition is_done (t : thread) : bool :=
  match at_pc t with Returned _ | Raised _ => true | _ => false end.

Definition is_returned (t : thread) : bool :=
  match at_pc t with Returned _ => true | _ => false end.

(** Inside the [with] block. *)
Definition in_cs (t : thread) : bool :=
  match at_pc t with
  | AtLoad | AtUpdate _ | AtOpen _ | AtDump _ | AtReturn _ => true
  | _ => false
  end.

Definition finished (s : state) : bool := forallb is_done (threads s).

(** Atomic actions a thread still has to take. *)
Definition fuel (t : thread) : nat :=
  match at_pc t with
  | AtLock => 6 | AtLoad => 5 | AtUpdate _ => 4 | AtOpen _ => 3
  | AtDump _ => 2 | AtReturn _ => 1 | Returned _ | Raised _ => 0
  end%nat.

Definition weight (w : thread → bool) (t : thread) : nat :=
  if w t then 1%nat else 0%nat.

(** The items of the store after [n] increments of [f], starting from
    the file [fl]. *)
Definition store_of (fl : stats_file) (f : string) (n : nat) : dict :=
  match n with
  | O => stored fl
  | S _ => dict_set (stored fl) f (JInt (count (stored fl) f + Z.of_nat n))
  end.

Definition file_of (fl : stats_file) (f : string) (n : nat) : stats_file :=
  match n with O => fl | S _ => Json (JObject (store_of fl f n)) end.

(** Holders of the lock: one when it is locked. *)
Definition held (lk : bool) : nat := if lk then 1%nat else 0%nat.

(** Threads inside the [with] block, and threads that have returned. *)
Definition in_cs_count (ts : list thread) : nat :=
  sum_list_with (weight in_cs) ts.

Definition returned_count (ts : list thread) : nat :=
  sum_list_with (weight is_returned) ts.

Definition measure (s : state) : nat := sum_list_with fuel (threads s).

(** What holds of a thread that increments [f], when [n] calls have
    returned since the store was [fl0] and the file now is [fl]. *)
Definition thread_ok (fl0 : stats_file) (f : string) (n : nat)
    (fl : stats_file) (t : thread) : Prop :=
  filename t = f ∧
  match at_pc t with
  | AtLock => True
  | AtLoad => fl = file_of fl0 f n
  | AtUpdate stats =>
      stats = JObject (store_of fl0 f n) ∧ fl = file_of fl0 f n
  | AtOpen stats =>
      stats = JObject (store_of fl0 f (S n)) ∧ fl = file_of fl0 f n
  | AtDump stats =>
      stats = JObject (store_of fl0 f (S n)) ∧ fl = Unparseable
  | AtReturn stats =>
      stats = JObject (store_of fl0 f (S n)) ∧ fl = Json stats
  | Returned v =>
      ∃ k, v = JInt k
           ∧ count (stored fl0) f + 1 ≤ k
             ≤ count (stored fl0) f + Z.of_nat n
  | Raised _ => False
  end.

(** The invariant of [total] calls that increment [f] from [fl0]. *)
Definition inv (fl0 : stats_file) (f : string) (total : nat) (s : state)
    : Prop :=
  length (threads s) = total
  ∧ in_cs_count (threads s) = held (locked s)
  ∧ (locked s = false → file s = file_of fl0 f (returned_count (threads s)))
  ∧ Forall (thread_ok fl0 f (returned_count (threads s)) (file s))
           (threads s).

End Threads.

(** ** Python values and the object heap *)

Module Py.

Definition loc : Type := nat.

(** Values as [json.load] builds them; lists and dicts are objects on
    the heap and a value refers to them. Floats are exact rationals. *)
Inductive pyval : Type :=
  | PNone
  | PBool (b : bool)
  | PInt (n : Z)
  | PFloat (x : Q)
  | PStr (s : string)
  | PRef (l : loc).

Inductive pyobj : Type :=
  | PDict (d : gmap string pyval)
  | PList (l : list pyval).

(** [l[i]] for a Python list and an integer: a negative index counts
    from the end, anything outside raises. *)
Definition list_getitem {A} (l : list A) (i : Z) : result A :=
  let n := Z.of_nat (length l) in
  let j := if i <? 0 then i + n else i in
  if (0 <=? j) && (j <? n)
  then match l !! Z.to_nat j with Some v => Ok v | None => Raise IndexError end
  else Raise IndexError.

(** The value of [max(a, b)]. *)
Definition py_max (a b : Q) : Q := if Qle_bool b a then a else b.

(** Rounding to the nearest integer, ties to the even one. *)
Definition round_half_even (x : Q) : Z :=
  let f := Qfloor x in
  match (x - inject_Z f ?= 1 # 2)%Q with
  | Lt => f
  | Gt => f + 1
  | Eq => if Z.even f then f else f + 1
  end.

(** [round(x, ndigits)] on exact numbers. *)
Definition py_round (x : Q) (ndigits : nat) : Q :=
  let p := inject_Z (10 ^ Z.of_nat ndigits) in
  (inject_Z (round_half_even (x * p)) / p)%Q.

(** The numbers of the interpreter: an int is not the float of the same
    value ([0] is written [0] by [json.dumps], [0.0] is written [0.0]). *)
Inductive number : Type :=
  | Int (n : Z)
  | Float (x : Q).

Definition value (a : number) : Q :=
  match a with Int n => inject_Z n | Float x => x end.

Definition of_number (a : number) : pyval :=
  match a with Int n => PInt n | Float x => PFloat x end.

(** [max(a, b)] on numbers: the first of the largest arguments, as the
    object it is. *)
Definition num_max (a b : number) : number :=
  if Qle_bool (value b) (value a) then a else b.

(** [a * b]: an int when both are ints. *)
Definition num_mul (a b : number) : number :=
  match a, b with
  | Int m, Int n => Int (m * n)
  | _, _ => Float (value a * value b)
  end.

(** [round(a, ndigits)] with [ndigits >= 0]: an int is returned as it
    is. *)
Definition num_round (a : number) (ndigits : nat) : number :=
  match a with
  | Int n => Int n
  | Float x => Float (py_round x ndigits)
  end.

End Py.

(** ** The score on IEEE doubles *)

Module Binary64.

(** The double that an integer literal denotes. *)
Definition of_Z (m : Z) : spec_float := binary_normalize 53 1024 m 0 false.

(** [max(0, x)] *)
Definition py_max0 (x : spec_float) : spec_float :=
  if SFltb (of_Z 0) x then x else of_Z 0.

(** [max(0, (1 - float(score) / 2.0)) * 100] in binary64 arithmetic, as
    the interpreter evaluates it before the value is rounded. *)
Definition similarity (score : spec_float) : spec_float :=
  SFmul 53 1024
    (py_max0 (SFsub 53 1024 (of_Z 1) (SFdiv 53 1024 score (of_Z 2))))
    (of_Z 100).

End Binary64.

(** ** The vector index *)

Module Faiss.

Definition vec : Type := list Q.

(** Modelled from the spec: the Vector Index of section 4.2 is the FAISS
    class [IndexFlatL2], a third-party library whose code is not among
    the sources. It keeps the vectors it is given, in order, and answers
    a query with the [k] nearest by squared L2 distance, ascending, ties
    by ascending row; ranks it cannot fill hold the label [-1]. *)
Record IndexFlatL2 : Type := { d : nat; xb : list vec }.

Definition new (dimension : nat) : IndexFlatL2 :=
  {| d := dimension; xb := [] |}.

Definition add (index : IndexFlatL2) (x : list vec) : IndexFlatL2 :=
  {| d := d index; xb := xb index ++ x |}.

Definition ntotal (index : IndexFlatL2) : nat := length (xb index).

Definition sqdist (x y : vec) : Q :=
  foldr Qplus 0%Q (zip_with (λ a b, ((a - b) * (a - b))%Q) x y).

(** Nearer, or as near and earlier in the index. *)
Definition closer (a b : Q * Z) : Prop :=
  (a.1 < b.1)%Q ∨ ((a.1 == b.1)%Q ∧ a.2 ≤ b.2).

#[global] Instance closer_dec : RelDecision closer.
Proof.
  intros a b. unfold closer, Qlt, Qeq. apply _.
Defined.

(** The distance the library leaves at a rank it cannot fill. *)
Definition FLT_MAX : Q := 340282346638528859811704183484516925440%Q.

Definition ranked (index : IndexFlatL2) (q : vec) : list (Q * Z) :=
  merge_sort closer (imap (λ i x, (sqdist x q, Z.of_nat i)) (xb index)).

Definition search1 (index : IndexFlatL2) (q : vec) (k : nat)
    : list (Q * Z) :=
  let hits := take k (ranked index q) in
  hits ++ replicate (k - length hits) (FLT_MAX, -1).

(** [index.search(xq, k)]: the matrices [D] and [I], a row per query. *)
Definition search (index : IndexFlatL2) (xq : list vec) (k : nat)
    : list (list Q) * list (list Z) :=
  ((λ q, fst <$> search1 index q k) <$> xq,
   (λ q, snd <$> search1 index q k) <$> xq).

End Faiss.

(** ** The retrieval service ([app.py], lines 49-53 and 73-96) *)

Module Retrieval.
Import Py Faiss.

(** Calls that leave the process's own code. *)
Inductive call : Type :=
  | Encode (texts : list string)          (* embed_model.encode(texts) *)
  | Search (xq : list vec) (k : nat).     (* index.search(xq, k) *)

(** The objects of the process and the calls made so far. *)
Record world : Type := World { heap : list pyobj; calls : list call }.

(** What the module binds at start-up and never rebinds: the embedder,
    the index read from [geophysical_data.index], and the list that
    [json.load] built from [mapping.json]. *)
Record globals : Type :=
  Globals { embed_model : list string → list vec;
            index : IndexFlatL2;
            mapping : loc }.

Definition deref (l : loc) : M world pyobj :=
  λ w, match heap w !! l with
       | Some o => (Ok o, w)
       | None => (Raise TypeError, w)
       end.

(** A new object is placed at the first unused location. *)
Definition alloc (o : pyobj) : M world loc :=
  λ w, (Ok (length (heap w)), World (heap w ++ [o]) (calls w)).

Definition store (l : loc) (o : pyobj) : M world unit :=
  λ w, (Ok tt, World (<[l := o]> (heap w)) (calls w)).

Definition called (c : call) : M world unit :=
  λ w, (Ok tt, World (heap w) (calls w ++ [c])).

(** [len(mapping)] *)
Definition len (l : loc) : M world Z :=
  o ← deref l;
  match o with
  | PList xs => mret (Z.of_nat (length xs))
  | PDict d => mret (Z.of_nat (size d))
  end.

(** [mapping[idx]] with an integer [idx] *)
Definition getitem (l : loc) (idx : Z) : M world pyval :=
  o ← deref l;
  match o with
  | PList xs => lift (list_getitem xs idx)
  | PDict _ => raise KeyError
  end.

(** [v.copy()]: a new object with the same entries (a shallow copy). *)
Definition copy (v : pyval) : M world loc :=
  match v with
  | PRef l => o ← deref l; alloc o
  | _ => raise TypeError
  end.

(** [item[key] = v] with a string key *)
Definition setitem (item : loc) (key : string) (v : pyval) : M world unit :=
  o ← deref item;
  match o with
  | PDict d => store item (PDict (<[key := v]> d))
  | PList _ => raise TypeError
  end.

(** [similarity = max(0, (1 - float(score) / 2.0)) * 100]: the int [0]
    when the difference is not above 0, a float otherwise. *)
Definition similarity (score : Q) : number :=
  num_mul (num_max (Int 0) (Float (1 - score / 2))) (Int 100).

(** The body of [for score, idx in zip(D[0], I[0])], over the rows that
    are left, with [results] as built so far. *)
Fixpoint loop (mapping : loc) (rows : list (Q * Z)) (results : list loc)
    : M world (list loc) :=
  match rows with
  | [] => mret results
  | (score, idx) :: rows =>
      n ← len mapping;
      if (idx <? n) && negb (idx =? -1) then
        rec ← getitem mapping idx;
        item ← copy rec;
        setitem item "score" (PFloat score);;
        setitem item "similarity"
          (of_number (num_round (similarity score) 1));;
        loop mapping rows (results ++ [item])
      else loop mapping rows results
  end.

(** [jsonify(results)]: the response holds the entries of each result;
    values that are objects stay references into the same heap. *)
Fixpoint jsonify (results : list loc) : M world (list (gmap string pyval)) :=
  match results with
  | [] => mret []
  | l :: results =>
      o ← deref l;
      match o with
      | PDict d => ds ← jsonify results; mret (d :: ds)
      | PList _ => raise TypeError
      end
  end.

(** [D[0]], [I[0]] *)
Definition row0 {A} (m : list (list A)) : M world (list A) :=
  lift (list_getitem m 0).

(** The [/search] route; [q] is the request argument, if any. *)
Definition search (g : globals) (q : option string)
    : M world (list (gmap string pyval)) :=
  let query := default EmptyString q in
  if bool_decide (query = EmptyString) then jsonify []
  else
    called (Encode [query]);;
    let query_vec := embed_model g [query] in
    called (Search query_vec 5);;
    let '(D, I') := Faiss.search (index g) query_vec 5 in
    D0 ← row0 D;
    I0 ← row0 I';
    results ← loop (mapping g) (zip D0 I0) [];
    jsonify results.

(** The [/datasets] route: [jsonify(mapping)]. *)
Definition get_datasets (g : globals) : M world (list (gmap string pyval)) :=
  o ← deref (mapping g);
  match o with
  | PList xs =>
      jsonify (omap (λ v, match v with PRef l => Some l | _ => None end) xs)
  | PDict _ => raise TypeError
  end.

(** One request after another. *)
Fixpoint serve (g : globals) (qs : list (option string)) : M world unit :=
  match qs with
  | [] => mret tt
  | q :: qs => λ w, serve g qs (search g q w).2
  end.

(** The dict a value refers to. *)
Definition as_dict (h : list pyobj) (v : pyval)
    : option (gmap string pyval) :=
  match v with
  | PRef l => match h !! l with Some (PDict d) => Some d | _ => None end
  | _ => None
  end.

(** The records a mapping list refers to, when it is a list of dicts. *)
Definition records (h : list pyobj) (mapping : loc)
    : option (list (gmap string pyval)) :=
  match h !! mapping with
  | Some (PList xs) => mapM (as_dict h) xs
  | _ => None
  end.

(** A blank query in the words of the spec: nothing but white space. *)
Definition is_space (c : ascii) : bool :=
  bool_decide (c ∈ [" "; "009"; "010"; "011"; "012"; "013"]%char).

Definition blank (query : string) : bool :=
  forallb is_space (list_ascii_of_string query).

(** The result the spec describes: the rows whose label is not [-1] and
    is below [len(mapping)], each as the record at that position with
    the distance and the similarity attached. *)
Definition valid (n : nat) (row : Q * Z) : bool :=
  negb (row.2 =? -1) && (row.2 <? Z.of_nat n).

Definition scored (recs : list (gmap string pyval)) (row : Q * Z)
    : option (gmap string pyval) :=
  (λ r, <["similarity" := of_number (num_round (similarity row.1) 1)]>
          (<["score" := PFloat row.1]> r)) <$> recs !! Z.to_nat row.2.

Definition search_spec (recs : list (gmap string pyval))
    (rows : list (Q * Z)) : list (gmap string pyval) :=
  omap (scored recs) (filter (λ row, valid (length recs) row) rows).

End Retrieval.

(** ** The index builder ([build_index.py]) *)

Module Builder.
Import Py Faiss.

(** One object of [metadata_descriptions.json]. *)
Abbreviation record := (gmap string pyval).

(** What a reader finds at a path under [data/index/]: no file, a file
    that was opened for writing and not completed, or what was written. *)
Inductive artifact (A : Type) : Type :=
  | Missing
  | Partial
  | Stored (a : A).
Arguments Missing {A}.
Arguments Partial {A}.
Arguments Stored {A} a.

Record disk : Type :=
  Disk { index_file : artifact IndexFlatL2;
         mapping_file : artifact (list record) }.

(** The I/O call of one run that fails, if any. *)
Inductive fault : Type :=
  | NoFault
  | FailMakedirs      (* os.makedirs("data/index", exist_ok=True) *)
  | FailOpenIndex     (* faiss.write_index cannot open its file *)
  | FailWriteIndex    (* faiss.write_index fails after opening it *)
  | FailOpenMapping   (* open("data/index/mapping.json", "w") *)
  | FailDumpMapping.  (* json.dump fails after the file was opened *)

#[global] Instance fault_eq_dec : EqDecision fault.
Proof. solve_decision. Defined.

(** [item["description"]]: whatever value the record holds there. *)
Definition description (item : record) : result pyval :=
  match item !! "description" with
  | Some v => Ok v
  | None => Raise KeyError
  end.

(** [[item["description"] for item in data]] *)
Fixpoint descriptions (data : list record) : result (list pyval) :=
  match data with
  | [] => Ok []
  | item :: data =>
      match description item with
      | Ok v => match descriptions data with
                | Ok vs => Ok (v :: vs)
                | Raise e => Raise e
                end
      | Raise e => Raise e
      end
  end.

(** [np.array(embeddings).shape]: rows and columns of a list of equally
    long vectors, and [(0,)] for the empty list. *)
Definition shape (embeddings : list vec) : list nat :=
  match embeddings with
  | [] => [0%nat]
  | x :: _ => [length embeddings; length x]
  end.

(** Lines 12-26: from the records to the index held in memory. [encode]
    is [model.encode], a third-party call on the values collected: it
    gives the embeddings or raises. *)
Definition build (encode : list pyval → result (list vec))
    (data : list record) : result IndexFlatL2 :=
  match descriptions data with
  | Raise e => Raise e
  | Ok descriptions =>
      match encode descriptions with
      | Raise e => Raise e
      | Ok embeddings =>
          match list_getitem (shape embeddings) 1 with
          | Raise e => Raise e
          | Ok dimension => Ok (add (new dimension) embeddings)
          end
      end
  end.

Definition makedirs (flt : fault) : M disk unit :=
  if decide (flt = FailMakedirs) then raise OSError else mret tt.

(** [faiss.write_index]: the library reports a file it cannot open or
    write by a C++ exception, which reaches Python as [RuntimeError]. *)
Definition write_index (flt : fault) (index : IndexFlatL2) : M disk unit :=
  λ dk, match flt with
        | FailOpenIndex => (Raise RuntimeError, dk)
        | FailWriteIndex =>
            (Raise RuntimeError, Disk Partial (mapping_file dk))
        | _ => (Ok tt, Disk (Stored index) (mapping_file dk))
        end.

Definition open_w (flt : fault) : M disk unit :=
  λ dk, if decide (flt = FailOpenMapping) then (Raise OSError, dk)
        else (Ok tt, Disk (index_file dk) Partial).

Definition json_dump (flt : fault) (data : list record) : M disk unit :=
  λ dk, if decide (flt = FailDumpMapping) then (Raise OSError, dk)
        else (Ok tt, Disk (index_file dk) (Stored data)).

(** [main], after [data] was read. *)
Definition main (encode : list pyval → result (list vec)) (flt : fault)
    (data : list record) : M disk unit :=
  index ← lift (build encode data);
  makedirs flt;;
  write_index flt index;;
  open_w flt;;
  json_dump flt data.

(** The pair on disk is the pair that a build of [data] writes. *)
Definition pair_of (encode : list pyval → result (list vec))
    (data : list record) (dk : disk) : Prop :=
  ∃ index, build encode data = Ok index
           ∧ dk = Disk (Stored index) (Stored data).

End Builder.

(** ** A small corpus, for running the definitions *)

Module Example.
Import Py Faiss Retrieval.

(** An embedder that maps every text to the same unit vector. *)
Definition model (texts : list string) : list vec :=
  (λ _, [1; 0]%Q) <$> texts.

(** The same embedder, as the builder calls it. *)
Definition encode (values : list pyval) : result (list vec) :=
  Ok ((λ _, [1; 0]%Q) <$> values).

Definition seismic : gmap string pyval :=
  {[ "file" := PStr "north_sea_reflection_profile.sgy";
     "description" := PStr "seismic reflection profile" ]}.

Definition gravity : gmap string pyval :=
  {[ "file" := PStr "bouguer_gravity_survey.h5";
     "description" := PStr "bouguer gravity anomaly" ]}.

(** Two rows: one at distance 0 from the embedded query, one at 2. *)
Definition index : IndexFlatL2 :=
  {| d := 2; xb := [[1; 0]%Q; [0; 1]%Q] |}.

(** The heap after [mapping = json.load(f)]: two dicts and the list. *)
Definition heap0 : list pyobj :=
  [PDict seismic; PDict gravity; PList [PRef 0%nat; PRef 1%nat]].

Definition g : globals := Globals model index 2%nat.
Definition w : world := World heap0 [].

End Example.

(** ** The download and statistics routes ([app.py], lines 59-71) *)

Module Downloads.
Import JSON Counter.

(** What [download_file] answers: the 404 of its own check, or what
    [send_from_directory(data_dir, filename, as_attachment=True)] answers
    for that name. *)
Inductive response : Type :=
  | NotFound
  | Sent (filename : string).

(** [download_file]; [raw] holds the names for which
    [os.path.exists(os.path.join(data_dir, filename))] is true. *)
Definition download_file (raw : gset string) (filename : string)
    : M stats_file response :=
  if decide (filename ∈ raw) then
    count ← increment_download filename;
    mret (Sent filename)
  else mret NotFound.

(** [stats]: [jsonify(load_stats())]. *)
Definition stats : M stats_file json := load_stats.

(** Download requests handled one after the other; the first exception
    ends the run. *)
Fixpoint downloads (raw : gset string) (filenames : list string)
    : M stats_file (list response) :=
  match filenames with
  | [] => mret []
  | f :: filenames =>
      r ← download_file raw f;
      rs ← downloads raw filenames;
      mret (r :: rs)
  end.

(** The requests of a list that count: those for [g], for a name that
    exists. *)
Definition hits (raw : gset string) (g : string) (filenames : list string)
    : nat :=
  length (filter (λ f, f = g ∧ f ∈ raw) filenames).

End Downloads.

(** ** Concurrent calls of [increment_download] for any files *)

Module Requests.
Import JSON Counter Threads.

(** One request thread per file id of [fs] arrives at the store [fl]. *)
Definition arrive (fl : stats_file) (fs : list string) : state :=
  State fl false ((λ f, Thread f AtLock) <$> fs).


(** A call for [g] that has returned. *)
Definition returned_for (g : string) (t : thread) : bool :=
  is_returned t && bool_decide (filename t = g).

(** The count of [g] once the calls that have returned are counted. *)
Definition expected (fl0 : stats_file) (ts : list thread) (g : string) : Z :=
  count (stored fl0) g + Z.of_nat (sum_list_with (weight (returned_for g)) ts).

Definition one (f g : string) : Z := if bool_decide (f = g) then 1 else 0.

(** A dict of ints that holds the counts [c]. *)
Definition holds (c : string → Z) (d : dict) : Prop :=
  ints d = true ∧ ∀ g, count d g = c g.

(** The file is a counter store and holds the counts [c]. *)
Definition agrees (c : string → Z) (fl : stats_file) : Prop :=
  is_store fl = true ∧ ∀ g, count (stored fl) g = c g.

(** The lock is held exactly while a thread is inside the [with] block,
    so at most one is. *)
Definition exclusive (s : state) : Prop :=
  in_cs_count (threads s) = held (locked s).

(** What holds of a thread when the calls that returned brought the
    counts from [c0] to [c] and the file now is [fl]. *)
Definition thread_ok (c0 c : string → Z) (fl : stats_file) (t : thread)
    : Prop :=
  let f := filename t in
  let c' := λ g, c g + one f g in
  match at_pc t with
  | AtLock => True
  | AtLoad => agrees c fl
  | AtUpdate stats => fl ≠ Directory ∧ ∃ d, stats = JObject d ∧ holds c d
  | AtOpen stats =>
      fl ≠ Directory
      ∧ ∃ d, stats = JObject d ∧ holds c' d ∧ is_Some (dict_get d f)
  | AtDump stats =>
      ∃ d, stats = JObject d ∧ holds c' d ∧ is_Some (dict_get d f)
  | AtReturn stats =>
      fl = Json stats
      ∧ ∃ d, stats = JObject d ∧ holds c' d ∧ is_Some (dict_get d f)
  | Returned v => ∃ k, v = JInt k ∧ c0 f + 1 ≤ k ≤ c f
  | Raised _ => False
  end.

(** The invariant of the calls [fs] that started from the store [fl0]. *)
Definition inv (fl0 : stats_file) (fs : list string) (s : state) : Prop :=
  filename <$> threads s = fs
  ∧ exclusive s
  ∧ (locked s = false → agrees (expected fl0 (threads s)) (file s))
  ∧ Forall (thread_ok (count (stored fl0)) (expected fl0 (threads s))
              (file s)) (threads s).

End Requests.

(** ** The summary route ([app.py], lines 103-125) *)

Module Summarize.
Import JSON.

(** Python's truth value of such a value, as [if not description] takes
    it. *)
Definition truthy (v : json) : bool :=
  match v with
  | JNull => false
  | JBool b => b
  | JInt n => negb (n =? 0)
  | JFloat x => match x with S754_zero _ => false | _ => true end
  | JStr s => match s with EmptyString => false | _ => true end
  | JList l => match l with [] => false | _ => true end
  | JObject l => match l with [] => false | _ => true end
  end.

(** [data.get(key, default)]. *)
Definition get (data : gmap string json) (key : string) (default : json)
    : json :=
  match data !! key with Some v => v | None => default end.

(** What [model_gemini.generate_content(prompt).text] gives: the text, or
    an exception, kept as its message. *)
Inductive outcome : Type :=
  | Text (s : string)
  | Fails (e : string).

(** The Gemini client. It may answer one call and fail the next:
    [gen n prompt] is its answer to the call made after [n] earlier
    ones. *)
Definition client : Type := nat → string → outcome.

(** What the route does outside the process: the prompts sent to Gemini
    and the seconds slept between attempts, oldest first. *)
Record world : Type := World { prompts : list string; sleeps : list Z }.

Definition generate_content (gen : client) (prompt : string)
    : world → outcome * world :=
  λ w, (gen (length (prompts w)) prompt,
        World (prompts w ++ [prompt]) (sleeps w)).

(** tenacity's [wait_exponential(multiplier, min, max)]: the seconds to
    wait after attempt [attempt_number], counted from 1. *)
Definition wait_exponential (multiplier min max : Z) (attempt_number : Z)
    : Z :=
  Z.max (Z.max 0 min) (Z.min (multiplier * 2 ^ (attempt_number - 1)) max).

(** tenacity's [stop_after_attempt(max_attempt_number)]. *)
Definition stop_after_attempt (max_attempt_number : Z) (attempt_number : Z)
    : bool :=
  max_attempt_number <=? attempt_number.

(** tenacity's [RetryError], raised when the last allowed attempt has
    failed; it wraps that attempt's exception. *)
Inductive error : Type := RetryError (last_attempt : string).

(** tenacity's [retry(wait=, stop=)] around [f], from attempt
    [attempt_number] on: the value of the first attempt that does not
    raise; after an attempt that raises, [RetryError] when [stop] says so,
    else a sleep of [wait] seconds and one more attempt. [fuel] bounds the
    attempts that the model follows. *)
Fixpoint retry (fuel : nat) (wait : Z → Z) (stop : Z → bool)
    (f : world → outcome * world) (attempt_number : Z) (w : world)
    : option ((string + error) * world) :=
  match fuel with
  | O => None
  | S fuel =>
      match f w with
      | (Text s, w') => Some (inl s, w')
      | (Fails e, w') =>
          if stop attempt_number then Some (inr (RetryError e), w')
          else retry fuel wait stop f (attempt_number + 1)
                 (World (prompts w') (sleeps w' ++ [wait attempt_number]))
      end
  end.

(** [call_gemini]; [model_gemini] is [None] when no API key is set. *)
Definition call_gemini (fuel : nat) (model_gemini : option client)
    (prompt : string) : world → option ((string + error) * world) :=
  retry fuel (wait_exponential 1 4 10) (stop_after_attempt 3)
    (match model_gemini with
     | None => λ w, (Text "Gemini API key not configured.", w)
     | Some gen => generate_content gen prompt
     end) 1.

(** The text of the [summary] field: a string, or
    [f"Error generating summary: {str(e)}"]. *)
Inductive summary : Type :=
  | Summary (text : string)
  | ErrorSummary (e : error).

(** [jsonify({"summary": ...})] with its status code. *)
Record response : Type := Response { status : Z; body : summary }.

Definition newline : string := String (ascii_of_nat 10) EmptyString.

Section format.
(** Python's [str] of a value, which an f-string field applies. *)
Variable str : json → string.

Definition prompt_of (filename description : json) : string :=
  ("Summarize the following geophysical dataset metadata for a researcher. Focus on its format, dimensions, and potential usefulness."
   ++ newline ++ newline ++ "File: " ++ str filename
   ++ newline ++ "Metadata: " ++ str description)%string.

(** [summarize], for a request whose body [data] is a JSON object. *)
Definition summarize (fuel : nat) (model_gemini : option client)
    (data : gmap string json) (w : world) : option (response * world) :=
  let description := get data "description" (JStr EmptyString) in
  let filename := get data "file" (JStr "Unknown File") in
  if negb (truthy description) then
    Some (Response 200 (Summary "No description available to summarize."),
          w)
  else
    match call_gemini fuel model_gemini (prompt_of filename description) w
    with
    | None => None
    | Some (inl s, w') => Some (Response 200 (Summary s), w')
    | Some (inr e, w') => Some (Response 500 (ErrorSummary e), w')
    end.

End format.

End Summarize.

(** ** The location of a dataset ([extract_metadata.py], lines 97-112) *)

Module Locations.
Import Py.

(** A location dict: its ["lat"], ["lon"] and ["label"]. *)
Record location : Type :=
  Location { lat : pyval; lon : pyval; label : string }.

(** [s.startswith(key)]. *)
Fixpoint startswith (key s : string) : bool :=
  match key, s with
  | EmptyString, _ => true
  | String _ _, EmptyString => false
  | String a key, String b s => Ascii.eqb a b && startswith key s
  end.

(** [key in s], for strings: [key] occurs somewhere in [s]. *)
Fixpoint contains (key s : string) : bool :=
  startswith key s
  || match s with
     | EmptyString => false
     | String _ s => contains key s
     end.

(** [KNOWN_LOCATIONS], in the order of the dict. *)
Definition KNOWN_LOCATIONS : list (string * location) :=
  [("tohoku_earthquake_ANMO",
    Location (PFloat 34.946) (PFloat (-106.457))
      "ANMO Station, Albuquerque, NM");
   ("alaska_seismic_COLA",
    Location (PFloat 64.874) (PFloat (-147.861))
      "COLA Station, College, AK");
   ("hawaii_volcanic_POHA",
    Location (PFloat 19.757) (PFloat (-155.532))
      "POHA Station, Pohakuloa, HI");
   ("north_sea_reflection",
    Location (PFloat 56.0) (PFloat 3.0) "North Sea, Continental Shelf");
   ("pacific_ocean_sst",
    Location (PFloat 0.0) (PFloat 180.0) "Equatorial Pacific Ocean");
   ("bouguer_gravity_survey",
    Location (PFloat 36.2) (PFloat (-117.0))
      "Basin and Range Province, NV")].

(** The loop of [get_location] over the items of a table. *)
Fixpoint first_match (table : list (string * location)) (filename : string)
    : location :=
  match table with
  | [] => Location (PInt 0) (PInt 0) "Unknown location"
  | (key, loc) :: table =>
      if contains key filename then loc else first_match table filename
  end.

Definition get_location (filename : string) : location :=
  first_match KNOWN_LOCATIONS filename.

(** The number a coordinate holds. *)
Definition number (v : pyval) : option Q :=
  match v with
  | PInt n => Some (inject_Z n)
  | PFloat x => Some x
  | _ => None
  end.

End Locations.

(** * Properties *)

(** ** The monad *)

Lemma bind_ok {S A B} (m : M S A) (k : A → M S B) s a s' :
  m s = (Ok a, s') → (m ≫= k) s = k a s'.
Proof. intros H. unfold mbind, M_bind, bind. by rewrite H. Qed.

Lemma bind_raise {S A B} (m : M S A) (k : A → M S B) s e s' :
  m s = (Raise e, s') → (m ≫= k) s = (Raise e, s').
Proof. intros H. unfold mbind, M_bind, bind. by rewrite H. Qed.

(** ** Dicts *)

Section dicts.
Import JSON.
Implicit Types (d : dict) (f g : string) (v : json).

Lemma dict_get_set d f v g :
  dict_get (dict_set d f v) g = if decide (f = g) then Some v else dict_get d g.
Proof.
  induction d as [|[k u] d IH]; cbn.
  - by destruct (decide (f = g)).
  - destruct (decide (k = f)) as [->|Hkf]; cbn.
    + by destruct (decide (f = g)).
    + destruct (decide (k = g)) as [->|Hkg].
      * by rewrite decide_False by done.
      * exact IH.
Qed.

Lemma dict_get_set_eq d f v : dict_get (dict_set d f v) f = Some v.
Proof. by rewrite dict_get_set, decide_True. Qed.

Lemma dict_get_set_ne d f v g :
  f ≠ g → dict_get (dict_set d f v) g = dict_get d g.
Proof. intros Hfg. by rewrite dict_get_set, decide_False. Qed.


(** Setting a key keeps the keys that were there, in their order, and
    adds a new key at the end. *)
Lemma dict_set_keys d f v :
  (dict_set d f v).*1
  = match dict_get d f with Some _ => d.*1 | None => d.*1 ++ [f] end.
Proof.
  induction d as [|[k u] d IH]; cbn; [done|].
  destruct (decide (k = f)) as [->|Hkf]; cbn; [done|].
  rewrite IH. by destruct (dict_get d f).
Qed.

End dicts.

(** ** The download counter, one call at a time *)

Section counter.
Import JSON Counter.
Implicit Types (d : dict) (f g : string) (fl : stats_file) (v : json).

Lemma ints_get d f :
  ints d = true → dict_get d f = None ∨ ∃ n, dict_get d f = Some (JInt n).
Proof.
  unfold ints. induction d as [|[k u] d IH]; cbn; [by left|].
  intros [Hu Hd]%andb_true_iff. destruct (decide (k = f)); [|by apply IH].
  right. destruct u; try done. by eexists.
Qed.

Lemma ints_set d f n : ints d = true → ints (dict_set d f (JInt n)) = true.
Proof.
  unfold ints. induction d as [|[k u] d IH]; cbn; [done|].
  intros [Hu Hd]%andb_true_iff. destruct (decide (k = f)); cbn.
  - done.
  - by rewrite Hu, IH.
Qed.


(** Line 37 on a dict of ints. *)
Lemma update_ints d f :
  ints d = true →
  update f (JObject d) = Ok (JObject (dict_set d f (JInt (count d f + 1)))).
Proof.
  intros Hd. unfold update, get_or, count.
  by destruct (ints_get d f Hd) as [->|[n ->]].
Qed.


Lemma getitem_set d f v : getitem (JObject (dict_set d f v)) f = Ok v.
Proof. unfold getitem. by rewrite dict_get_set_eq. Qed.

Lemma is_store_ints fl : is_store fl = true → ints (stored fl) = true.
Proof. by destruct fl as [| | | |[]]. Qed.

Lemma is_store_parseable fl : is_store fl = true → parseable fl = true.
Proof. by destruct fl. Qed.

Lemma load_stats_stored fl :
  is_store fl = true → load_stats fl = (Ok (JObject (stored fl)), fl).
Proof. by destruct fl as [| | | |[]]. Qed.

Lemma load_stats_frame fl : (load_stats fl).2 = fl.
Proof. by destruct fl. Qed.

Lemma save_stats_json stats fl :
  fl ≠ Directory → save_stats stats fl = (Ok tt, Json stats).
Proof. by destruct fl. Qed.

(** The call, step by step: the load, line 37, and then the save, which
    cannot fail on what could be loaded. *)
Lemma increment_download_run f fl :
  increment_download f fl
  = match load_stats fl with
    | (Raise e, _) => (Raise e, fl)
    | (Ok stats, _) =>
        match update f stats with
        | Raise e => (Raise e, fl)
        | Ok stats' => (getitem stats' f, Json stats')
        end
    end.
Proof. unfold increment_download. by destruct fl. Qed.

Lemma increment_download_stored fl f :
  is_store fl = true →
  increment_download f fl
  = (Ok (JInt (count (stored fl) f + 1)),
     Json (JObject (dict_set (stored fl) f (JInt (count (stored fl) f + 1))))).
Proof.
  intros Hs. rewrite increment_download_run, (load_stats_stored fl Hs).
  rewrite (update_ints _ f (is_store_ints fl Hs)). by rewrite getitem_set.
Qed.

Lemma increment_download_unparseable f :
  increment_download f Unparseable = (Raise JSONDecodeError, Unparseable).
Proof. reflexivity. Qed.


Lemma is_store_set fl f n :
  is_store fl = true →
  is_store (Json (JObject (dict_set (stored fl) f (JInt n)))) = true.
Proof. intros Hs. cbn. by apply ints_set, is_store_ints. Qed.

End counter.







(** ** The download counter under concurrent requests *)

Lemma sum_list_with_insert {A} (w : A → nat) (l : list A) i x y :
  l !! i = Some x →
  (sum_list_with w (<[i := y]> l) + w x = sum_list_with w l + w y)%nat.
Proof.
  revert i. induction l as [|a l IH]; intros [|i] H; simplify_eq/=; [lia|].
  specialize (IH i H). lia.
Qed.

Lemma sum_list_with_lookup {A} (w : A → nat) (l : list A) i x :
  l !! i = Some x → (w x ≤ sum_list_with w l)%nat.
Proof.
  revert i. induction l as [|a l IH]; intros [|i] H; simplify_eq/=; [lia|].
  specialize (IH i H). lia.
Qed.


Lemma sum_list_with_pos {A} (w : A → nat) (l : list A) :
  (0 < sum_list_with w l)%nat → ∃ i x, l !! i = Some x ∧ (0 < w x)%nat.
Proof.
  induction l as [|a l IH]; cbn; [lia|]. intros H.
  destruct (w a) eqn:Ha.
  - destruct IH as (i & x & Hi & Hx); [lia|]. by exists (S i), x.
  - exists 0%nat, a. split; [done|lia].
Qed.

Section threads.
Import JSON Counter Threads.
Variables (fl0 : stats_file) (f : string) (total : nat).
Hypothesis fl0_store : is_store fl0 = true.

Local Abbreviation ok := (thread_ok fl0 f).
Local Abbreviation c0 := (count (stored fl0) f).












Lemma thread_step_fuel t fl lk t' fl' lk' :
  thread_step t fl lk = Some (t', fl', lk') → (fuel t' < fuel t)%nat.
Proof.
  unfold thread_step, fuel, leave, lift. destruct t as [g p]; cbn.
  destruct p; try done.
  - destruct lk; intros; simplify_eq/=. lia.
  - destruct (load_stats fl) as [[?|?] ?]; intros; simplify_eq/=; lia.
  - destruct (update g stats) as [?|?]; intros; simplify_eq/=; lia.
  - destruct (open_w fl) as [[?|?] ?]; intros; simplify_eq/=; lia.
  - destruct (json_dump stats fl) as [[?|?] ?]; intros; simplify_eq/=; lia.
  - destruct (getitem stats g) as [?|?]; intros; simplify_eq/=; lia.
Qed.

Lemma step_measure s s' : step s s' → (measure s' < measure s)%nat.
Proof.
  intros Hst. destruct Hst as [s i t t' fl' lk' Hi Hstep].
  unfold measure; cbn.
  pose proof (sum_list_with_insert fuel _ i t t' Hi).
  pose proof (thread_step_fuel _ _ _ _ _ _ Hstep). lia.
Qed.







Lemma forallb_false_lookup {A} (p : A → bool) (l : list A) :
  forallb p l = false → ∃ i x, l !! i = Some x ∧ p x = false.
Proof.
  induction l as [|a l IH]; cbn; [done|].
  destruct (p a) eqn:Ha; cbn.
  - intros H. destruct (IH H) as (i & x & Hi & Hx). by exists (S i), x.
  - intros _. by exists 0%nat, a.
Qed.


Lemma sum_weight_none (w : thread → bool) ts :
  Forall (λ t, w t = false) ts → sum_list_with (weight w) ts = 0%nat.
Proof.
  induction 1 as [|t ts Ht _ IH]; cbn; [done|].
  unfold weight at 1. rewrite Ht, IH. done.
Qed.

(** Inside the [with] block a thread can always act. *)
Lemma thread_step_in_cs t fl lk :
  in_cs t = true → is_Some (thread_step t fl lk).
Proof.
  unfold in_cs, thread_step. destruct (at_pc t); try done; eauto.
  destruct (getitem stats (filename t)) as [?|?]; eauto.
Qed.




End threads.

(** One scheduling decision in a concrete run: thread [i] acts. *)
Ltac schedule i :=
  eapply rtc_l;
  [ eapply (Threads.step_thread _ i); [reflexivity | reflexivity] | cbn ].

(** The step model run with one thread is [increment_download]: the same
    value or exception, the same file, and the lock free again. *)
Lemma lone_thread_is_increment_download (fl : Counter.stats_file) (f : string) :
  rtc Threads.step (Threads.init fl 1 f)
    (Threads.State (Counter.increment_download f fl).2 false
       [Threads.Thread f
          match (Counter.increment_download f fl).1 with
          | Ok v => Threads.Returned v
          | Raise e => Threads.Raised e
          end]).
Proof.
  rewrite increment_download_run. unfold Threads.init; cbn.
  schedule 0%nat.
  destruct (Counter.load_stats fl) as [[stats|e] fl'] eqn:Hl;
    (assert (fl' = fl) as -> by (by rewrite <- (load_stats_frame fl), Hl)).
  2:{ eapply rtc_l.
      { eapply (Threads.step_thread _ 0%nat); [reflexivity|].
        unfold Threads.thread_step; cbn. by rewrite Hl. }
      cbn. reflexivity. }
  eapply rtc_l.
  { eapply (Threads.step_thread _ 0%nat); [reflexivity|].
    unfold Threads.thread_step; cbn. by rewrite Hl. }
  cbn. destruct (Counter.update f stats) as [stats'|e] eqn:Hu.
  2:{ eapply rtc_l.
      { eapply (Threads.step_thread _ 0%nat); [reflexivity|].
        unfold Threads.thread_step, lift; cbn. by rewrite Hu. }
      cbn. reflexivity. }
  eapply rtc_l.
  { eapply (Threads.step_thread _ 0%nat); [reflexivity|].
    unfold Threads.thread_step, lift; cbn. by rewrite Hu. }
  cbn. eapply rtc_l.
  { eapply (Threads.step_thread _ 0%nat); [reflexivity|].
    unfold Threads.thread_step; cbn.
    assert (Counter.open_w fl = (Ok tt, Counter.Unparseable)) as ->
      by (by destruct fl). done. }
  cbn. schedule 0%nat.
  destruct (Counter.getitem stats' f) as [v|e] eqn:Hg.
  - eapply rtc_l.
    { eapply (Threads.step_thread _ 0%nat); [reflexivity|].
      unfold Threads.thread_step; cbn. by rewrite Hg. }
    cbn. reflexivity.
  - eapply rtc_l.
    { eapply (Threads.step_thread _ 0%nat); [reflexivity|].
      unfold Threads.thread_step; cbn. by rewrite Hg. }
    cbn. reflexivity.
Qed.




(** ** The similarity score *)

Section similarity.
Import Py Retrieval.
Local Open Scope Q_scope.

Lemma py_max_0_bounds x : x <= 1 → 0 <= py_max 0 x <= 1.
Proof.
  intros Hx. unfold py_max. destruct (Qle_bool x 0) eqn:E.
  - split; [apply Qle_refl|discriminate].
  - split; [|done]. apply Qnot_lt_le. intros Hlt.
    apply Qlt_le_weak, Qle_bool_iff in Hlt. congruence.
Qed.

Lemma percent_bounds d : 0 <= d → 0 <= py_max 0 (1 - d / 2) * 100 <= 100.
Proof.
  intros Hd.
  destruct (py_max_0_bounds (1 - d / 2)) as [H0 H1].
  { assert (0 <= d / 2) by (apply Qle_shift_div_l; [done|lra]). lra. }
  split; lra.
Qed.

(** Rounding stays between integers that bound the argument. *)
Lemma round_half_even_bounds (a b : Z) x :
  inject_Z a <= x <= inject_Z b → (a ≤ round_half_even x ≤ b)%Z.
Proof.
  intros [Ha Hb]. unfold round_half_even.
  pose proof (Qfloor_le x) as Hfl. pose proof (Qlt_floor x) as Hlt.
  assert (a ≤ Qfloor x)%Z as Hlo.
  { assert (inject_Z a < inject_Z (Qfloor x + 1)) as H
      by (eapply Qle_lt_trans; eauto).
    rewrite <- Zlt_Qlt in H. lia. }
  assert (Qfloor x ≤ b)%Z as Hhi.
  { rewrite Zle_Qle. by eapply Qle_trans. }
  destruct (x - inject_Z (Qfloor x) ?= 1 # 2) eqn:E.
  - destruct (Z.even (Qfloor x)); [lia|].
    apply Qeq_alt in E. split; [lia|].
    destruct (decide (Qfloor x = b)) as [Hb'|]; [|lia].
    rewrite Hb' in E. lra.
  - lia.
  - apply Qgt_alt in E. split; [lia|].
    destruct (decide (Qfloor x = b)) as [Hb'|]; [|lia].
    rewrite Hb' in E. lra.
Qed.

Lemma py_round_1_bounds x : 0 <= x <= 100 → 0 <= py_round x 1 <= 100.
Proof.
  intros [H0 H1]. unfold py_round. change (inject_Z (10 ^ Z.of_nat 1)) with 10.
  destruct (round_half_even_bounds 0 1000 (x * 10)) as [Hlo Hhi].
  { change (inject_Z 0) with 0. change (inject_Z 1000) with 1000. lra. }
  rewrite Zle_Qle in Hlo, Hhi.
  change (inject_Z 0) with 0 in Hlo. change (inject_Z 1000) with 1000 in Hhi.
  split.
  - apply Qle_shift_div_l; [done|]. lra.
  - apply Qle_shift_div_r; [done|]. lra.
Qed.

(** The nearest integer is at most a half away. *)
Lemma round_half_even_near x :
  - (1 # 2) <= inject_Z (round_half_even x) - x <= 1 # 2.
Proof.
  unfold round_half_even.
  pose proof (Qfloor_le x) as Hfl. pose proof (Qlt_floor x) as Hlt.
  rewrite inject_Z_plus in Hlt. change (inject_Z 1) with 1 in Hlt.
  destruct (x - inject_Z (Qfloor x) ?= 1 # 2) eqn:E.
  - apply Qeq_alt in E. destruct (Z.even (Qfloor x)).
    + lra.
    + rewrite inject_Z_plus. change (inject_Z 1) with 1. lra.
  - apply Qlt_alt in E. lra.
  - apply Qgt_alt in E. rewrite inject_Z_plus. change (inject_Z 1) with 1.
    lra.
Qed.

(** [round(x, 1)] is a number of tenths, the nearest to [x]. *)
Lemma py_round_1_tenths x :
  py_round x 1 == inject_Z (round_half_even (x * 10)) / 10.
Proof. reflexivity. Qed.

Lemma py_round_1_near x : - (1 # 20) <= py_round x 1 - x <= 1 # 20.
Proof.
  unfold py_round. change (inject_Z (10 ^ Z.of_nat 1)) with 10.
  pose proof (round_half_even_near (x * 10)) as Hnear. revert Hnear.
  generalize (inject_Z (round_half_even (x * 10))). intros r Hr.
  assert (r / 10 == r * (1 # 10)) as -> by reflexivity. lra.
Qed.

Lemma value_num_max a b : value (num_max a b) = py_max (value a) (value b).
Proof. unfold num_max, py_max. by destruct (Qle_bool (value b) (value a)). Qed.

(** The two cases of line 92: the int [0] from distance 2 on, a float
    below. *)
Lemma similarity_cases d :
  (2 <= d ∧ similarity d = Int 0 ∧ py_max 0 (1 - d / 2) = 0)
  ∨ (d < 2 ∧ similarity d = Float ((1 - d / 2) * 100)
     ∧ py_max 0 (1 - d / 2) = 1 - d / 2).
Proof.
  unfold similarity, num_max, py_max. cbn [value].
  change (inject_Z 0) with 0.
  assert (d / 2 == d * (1 # 2)) as Hhalf by reflexivity.
  destruct (Qle_bool (1 - d / 2) 0) eqn:E.
  - left. apply Qle_bool_iff in E. split; [|done].
    revert E Hhalf. generalize (d / 2). intros h E Hh. lra.
  - right. split; [|done]. apply Qnot_le_lt. intros Hd.
    assert (1 - d / 2 <= 0) as H.
    { revert Hhalf. generalize (d / 2). intros h Hh. lra. }
    apply Qle_bool_iff in H. congruence.
Qed.

(** The number stored is the value of the formula. *)
Lemma value_rounded d :
  value (num_round (similarity d) 1)
  == py_round (py_max 0 (1 - d / 2) * 100) 1.
Proof.
  destruct (similarity_cases d) as [(_ & -> & ->)|(_ & -> & ->)];
    reflexivity.
Qed.

End similarity.

(** ** The heap operations of the search route *)

Section heap.
Import Py Faiss Retrieval.
Implicit Types (w : world) (h : list pyobj) (l m : loc).

(** Reading leaves the world as it is. *)
Lemma bind_pure {A B} (c : M world A) (k : A → M world B) w :
  (c w).2 = w →
  (c ≫= k) w = match (c w).1 with
               | Ok a => k a w
               | Raise e => (Raise e, w)
               end.
Proof.
  intros H. unfold mbind, M_bind, bind.
  destruct (c w) as [[a|e] w']; cbn in *; by subst.
Qed.

Lemma deref_pure l w : (deref l w).2 = w.
Proof. unfold deref. by destruct (heap w !! l). Qed.

Lemma len_pure m w : (len m w).2 = w.
Proof.
  unfold len. rewrite bind_pure by apply deref_pure.
  destruct (deref m w).1 as [[d|xs]|e]; done.
Qed.

Lemma getitem_pure m idx w : (getitem m idx w).2 = w.
Proof.
  unfold getitem. rewrite bind_pure by apply deref_pure.
  destruct (deref m w).1 as [[d|xs]|e]; done.
Qed.

Lemma deref_Some l w o : heap w !! l = Some o → deref l w = (Ok o, w).
Proof. unfold deref. by intros ->. Qed.

(** [copy] either raises and changes nothing, or places a copy of an
    existing object at the end of the heap. *)
Lemma copy_cases v w :
  (∃ l o, v = PRef l ∧ heap w !! l = Some o
          ∧ copy v w = (Ok (length (heap w)),
                        World (heap w ++ [o]) (calls w)))
  ∨ (∃ e, copy v w = (Raise e, w)).
Proof.
  destruct v; try (right; by eexists). unfold copy.
  destruct (heap w !! l) as [o|] eqn:Hl.
  - left. exists l, o. repeat split; [done|].
    by rewrite (bind_ok _ _ _ _ _ (deref_Some _ _ _ Hl)).
  - right. exists TypeError. unfold mbind, M_bind, bind, deref.
    by rewrite Hl.
Qed.

(** Setting a key of the object that was allocated last. *)
Lemma setitem_last h o cs key v :
  setitem (length h) key v (World (h ++ [o]) cs)
  = match o with
    | PDict d => (Ok tt, World (h ++ [PDict (<[key := v]> d)]) cs)
    | PList _ => (Raise TypeError, World (h ++ [o]) cs)
    end.
Proof.
  unfold setitem.
  rewrite (bind_ok _ _ _ o (World (h ++ [o]) cs)).
  - destruct o as [d|xs]; [|done]. unfold store; cbn. do 2 f_equal.
    rewrite insert_app_r_alt by done. by rewrite Nat.sub_diag.
  - apply deref_Some. cbn. by apply list_lookup_middle.
Qed.

(** The loop only ever adds objects to the heap, and makes no call. *)
Lemma loop_frame m rows :
  ∀ results w,
    ∃ ext, heap (loop m rows results w).2 = heap w ++ ext
           ∧ calls (loop m rows results w).2 = calls w.
Proof.
  induction rows as [|[score idx] rows IH]; intros results w.
  { exists []. by rewrite app_nil_r. }
  cbn [loop]. rewrite bind_pure by apply len_pure.
  destruct (len m w).1 as [n|e]; [|exists []; by rewrite app_nil_r].
  destruct ((idx <? n) && negb (idx =? -1)); [|apply IH].
  rewrite bind_pure by apply getitem_pure.
  destruct (getitem m idx w).1 as [rec|e];
    [|exists []; by rewrite app_nil_r].
  destruct (copy_cases rec w) as [(l & o & -> & Hl & Hc)|[e Hc]].
  - rewrite (bind_ok _ _ _ _ _ Hc).
    destruct o as [d|xs].
    + rewrite (bind_ok _ _ _ _ _ (setitem_last _ (PDict d) _ _ _)).
      rewrite (bind_ok _ _ _ _ _ (setitem_last _ (PDict _) _ _ _)).
      match goal with |- context [loop m rows ?r ?w1] =>
        destruct (IH r w1) as (ext & Hh & Hcs) end.
      cbn in Hh, Hcs. eexists. split; [|exact Hcs].
      rewrite Hh, <- app_assoc. reflexivity.
    + rewrite (bind_raise _ _ _ _ _ (setitem_last _ (PList xs) _ _ _)).
      by eexists.
  - rewrite (bind_raise _ _ _ _ _ Hc). exists []. by rewrite app_nil_r.
Qed.

Lemma jsonify_pure results : ∀ w, (jsonify results w).2 = w.
Proof.
  induction results as [|l results IH]; intros w; [done|].
  cbn [jsonify]. rewrite bind_pure by apply deref_pure.
  destruct (deref l w).1 as [[d|xs]|e]; try done.
  rewrite bind_pure by apply IH. by destruct (jsonify results w).1.
Qed.

(** A search only adds objects to the heap. *)
Lemma search_frame g q w :
  heap w `prefix_of` heap (search g q w).2.
Proof.
  unfold search. case_bool_decide.
  { rewrite jsonify_pure. reflexivity. }
  unfold mbind, M_bind, bind, called; cbn.
  destruct (list_getitem _ 0) as [D0|e]; [|reflexivity].
  destruct (list_getitem _ 0) as [I0|e]; [|reflexivity].
  match goal with |- context [loop ?m ?rows ?r ?w1] =>
    destruct (loop_frame m rows r w1) as (ext & Hh & _);
    destruct (loop m rows r w1) as [[results|e] w2] eqn:Hloop end;
    cbn in Hh.
  - rewrite jsonify_pure. by exists ext.
  - by exists ext.
Qed.

Lemma serve_frame g qs : ∀ w, heap w `prefix_of` heap (serve g qs w).2.
Proof.
  induction qs as [|q qs IH]; intros w; [reflexivity|].
  cbn [serve]. etrans; [apply (search_frame g q w)|apply IH].
Qed.

End heap.

(** ** The search route against the result the spec describes *)

Section refinement.
Import Py Faiss Retrieval.
Implicit Types (w : world) (h : list pyobj) (l m : loc)
  (recs : list (gmap string pyval)).

Lemma as_dict_app h ext v d : as_dict h v = Some d → as_dict (h ++ ext) v = Some d.
Proof.
  destruct v; try done. cbn.
  destruct (h !! l) as [o|] eqn:Hl; [|done].
  by rewrite (lookup_app_l_Some _ _ _ _ Hl).
Qed.

Lemma records_inv h m recs :
  records h m = Some recs →
  ∃ xs, h !! m = Some (PList xs)
        ∧ Forall2 (λ v d, as_dict h v = Some d) xs recs.
Proof.
  unfold records. destruct (h !! m) as [[d|xs]|]; try done.
  intros H. exists xs. split; [done|]. by apply mapM_Some.
Qed.

(** Objects added to the heap do not change the records. *)
Lemma records_app h ext m recs :
  records h m = Some recs → records (h ++ ext) m = Some recs.
Proof.
  intros (xs & Hm & Hxs)%records_inv. unfold records.
  rewrite (lookup_app_l_Some _ _ _ _ Hm). apply mapM_Some.
  eapply Forall2_impl; [exact Hxs|]. intros v d. apply as_dict_app.
Qed.

Lemma records_prefix h h' m recs :
  h `prefix_of` h' → records h m = Some recs → records h' m = Some recs.
Proof. intros [ext ->]. apply records_app. Qed.

Lemma list_getitem_nat {A} (xs : list A) (idx : Z) x :
  0 ≤ idx → xs !! Z.to_nat idx = Some x → list_getitem xs idx = Ok x.
Proof.
  intros Hidx Hx. unfold list_getitem.
  pose proof (lookup_lt_Some _ _ _ Hx) as Hlt.
  destruct (idx <? 0) eqn:E; [lia|].
  destruct ((0 <=? idx) && (idx <? Z.of_nat (length xs))) eqn:E2.
  - by rewrite Hx.
  - apply andb_false_iff in E2 as [?|?]; lia.
Qed.

Lemma len_list m w xs :
  heap w !! m = Some (PList xs) → len m w = (Ok (Z.of_nat (length xs)), w).
Proof.
  intros Hm. unfold len. by rewrite (bind_ok _ _ _ _ _ (deref_Some _ _ _ Hm)).
Qed.

Lemma getitem_list m w xs idx v :
  heap w !! m = Some (PList xs) → 0 ≤ idx → xs !! Z.to_nat idx = Some v →
  getitem m idx w = (Ok v, w).
Proof.
  intros Hm Hidx Hv. unfold getitem.
  rewrite (bind_ok _ _ _ _ _ (deref_Some _ _ _ Hm)).
  unfold lift. by rewrite (list_getitem_nat xs idx v).
Qed.

Lemma copy_ref l w o :
  heap w !! l = Some o →
  copy (PRef l) w = (Ok (length (heap w)), World (heap w ++ [o]) (calls w)).
Proof.
  intros Hl. unfold copy. by rewrite (bind_ok _ _ _ _ _ (deref_Some _ _ _ Hl)).
Qed.

Lemma valid_cond n row :
  (row.2 <? Z.of_nat n) && negb (row.2 =? -1) = valid n row.
Proof. unfold valid. apply andb_comm. Qed.

Lemma search_spec_cons_valid recs row rows r :
  valid (length recs) row = true → scored recs row = Some r →
  search_spec recs (row :: rows) = r :: search_spec recs rows.
Proof.
  intros Hv Hr. unfold search_spec.
  rewrite filter_cons_True by (by rewrite Hv). cbn. by rewrite Hr.
Qed.

Lemma search_spec_cons_invalid recs row rows :
  valid (length recs) row = false →
  search_spec recs (row :: rows) = search_spec recs rows.
Proof.
  intros Hv. unfold search_spec. rewrite filter_cons_False; [done|].
  rewrite Hv. cbn. tauto.
Qed.

(** On a mapping that is a list of dicts, and rows whose labels are [-1]
    or positions, the loop adds exactly the described results, in order,
    as new objects. *)
Lemma loop_spec m recs rows :
  Forall (λ row : Q * Z, -1 ≤ row.2) rows →
  ∀ results w,
    records (heap w) m = Some recs →
    loop m rows results w
    = (Ok (results ++ seq (length (heap w))
                          (length (search_spec recs rows))),
       World (heap w ++ (PDict <$> search_spec recs rows)) (calls w)).
Proof.
  induction 1 as [|[score idx] rows Hidx _ IH]; intros results w Hrecs.
  { cbn. rewrite !app_nil_r. by destruct w. }
  destruct (records_inv _ _ _ Hrecs) as (xs & Hm & Hxs).
  pose proof (Forall2_length _ _ _ Hxs) as Hlen.
  cbn [loop]. rewrite (bind_ok _ _ _ _ _ (len_list _ _ _ Hm)).
  pose proof (valid_cond (length recs) (score, idx)) as Hvc.
  cbn [snd] in Hvc. rewrite Hlen, Hvc. clear Hvc.
  destruct (valid (length recs) (score, idx)) eqn:Hval.
  - pose proof Hval as Hv. unfold valid in Hv. cbn in Hv, Hidx.
    apply andb_true_iff in Hv as [Hne Hlt].
    apply negb_true_iff, Z.eqb_neq in Hne. apply Z.ltb_lt in Hlt.
    destruct (lookup_lt_is_Some_2 xs (Z.to_nat idx)) as [v Hv]; [lia|].
    destruct (Forall2_lookup_l _ _ _ _ _ Hxs Hv) as (d & Hd & Hvd).
    destruct v as [| | | | |l]; try done. cbn in Hvd.
    destruct (heap w !! l) as [[d'|]|] eqn:Hl; simplify_eq.
    rewrite (bind_ok _ _ _ _ _ (getitem_list _ _ _ idx _ Hm ltac:(lia) Hv)).
    rewrite (bind_ok _ _ _ _ _ (copy_ref _ _ _ Hl)).
    rewrite (bind_ok _ _ _ _ _ (setitem_last _ (PDict d) _ _ _)).
    rewrite (bind_ok _ _ _ _ _ (setitem_last _ (PDict _) _ _ _)).
    rewrite IH by (by apply records_app).
    erewrite (search_spec_cons_valid recs (score, idx)); [|done|].
    2: { unfold scored. cbn [fst snd]. by rewrite Hd. }
    cbn [heap calls fmap list_fmap length].
    rewrite length_app, <- !app_assoc. cbn [length app seq].
    rewrite Nat.add_1_r. reflexivity.
  - rewrite search_spec_cons_invalid by done. by apply IH.
Qed.

(** The response of [jsonify] for results that are the dicts at the end
    of the heap. *)
Lemma jsonify_seq ds :
  ∀ h rest cs,
    jsonify (seq (length h) (length ds))
            (World (h ++ (PDict <$> ds) ++ rest) cs)
    = (Ok ds, World (h ++ (PDict <$> ds) ++ rest) cs).
Proof.
  induction ds as [|d ds IH]; intros h rest cs; [done|].
  cbn [length seq jsonify fmap list_fmap app].
  rewrite (bind_ok _ _ _ (PDict d) (World (h ++ PDict d :: (PDict <$> ds) ++ rest) cs)).
  2: { apply deref_Some. cbn. by apply list_lookup_middle. }
  specialize (IH (h ++ [PDict d]) rest cs).
  rewrite length_app, Nat.add_1_r, <- app_assoc in IH. cbn [app] in IH.
  by rewrite (bind_ok _ _ _ _ _ IH).
Qed.

End refinement.

(** ** The vector index *)

Section index.
Import Faiss.
Implicit Types (index : IndexFlatL2) (q : vec) (rows : list (Q * Z)).

#[local] Instance closer_trans : Transitive closer.
Proof.
  intros [d1 i1] [d2 i2] [d3 i3]. unfold closer; cbn.
  intros [H1|[H1 I1]] [H2|[H2 I2]]; [left; lra..|].
  right. split; [lra|lia].
Qed.

#[local] Instance closer_total : Total closer.
Proof.
  intros [d1 i1] [d2 i2]. unfold closer; cbn.
  destruct (Q_dec d1 d2) as [[H|H]|H]; [by left; left|by right; left|].
  destruct (Z.le_ge_cases i1 i2).
  - left; right. by split.
  - right; right. split; [by symmetry|done].
Qed.

Lemma StronglySorted_sublist {A} (R : relation A) (l1 l2 : list A) :
  l1 `sublist_of` l2 → StronglySorted R l2 → StronglySorted R l1.
Proof.
  induction 1 as [|x l1 l2 Hsub IH|x l1 l2 Hsub IH]; intros Hs; [done|..].
  - apply StronglySorted_inv in Hs as [Hs Hx]. constructor; [by apply IH|].
    eapply Forall_forall. intros y Hy.
    eapply (proj1 (Forall_forall _ _) Hx). by eapply elem_of_sublist.
  - apply StronglySorted_inv in Hs as [Hs _]. by apply IH.
Qed.

Lemma closer_le (a b : Q * Z) : closer a b → (a.1 <= b.1)%Q.
Proof. intros [H|[H _]]; lra. Qed.

Lemma ranked_sorted index q : StronglySorted closer (ranked index q).
Proof. apply StronglySorted_merge_sort; apply _. Qed.

Lemma ranked_perm index q :
  ranked index q
  ≡ₚ imap (λ i x, (sqdist x q, Z.of_nat i)) (xb index).
Proof. apply merge_sort_Permutation. Qed.

Lemma ranked_length index q : length (ranked index q) = ntotal index.
Proof. by rewrite ranked_perm, length_imap. Qed.

(** The labels of the ranking are the positions of the index, each once. *)
Lemma ranked_labels index q :
  (ranked index q).*2 ≡ₚ Z.of_nat <$> seq 0 (ntotal index).
Proof.
  rewrite ranked_perm, fmap_imap. unfold ntotal.
  generalize (xb index). intros l.
  change (λ n : nat, snd ∘ (λ x : vec, (sqdist x q, Z.of_nat n)))
    with (λ (n : nat) (_ : vec), Z.of_nat n).
  rewrite (imap_seq_0 l Z.of_nat). done.
Qed.

Lemma search1_length index q k : length (search1 index q k) = k.
Proof.
  unfold search1. rewrite length_app, length_replicate, length_take. lia.
Qed.

Lemma search1_labels index q k :
  Forall (λ row : Q * Z, -1 ≤ row.2) (search1 index q k).
Proof.
  unfold search1. apply Forall_app. split.
  - apply Forall_forall. intros row Hrow.
    assert (row.2 ∈ (ranked index q).*2) as Hin.
    { apply list_elem_of_fmap_2. eapply elem_of_sublist; [exact Hrow|].
      apply sublist_take. }
    rewrite ranked_labels in Hin.
    apply list_elem_of_fmap in Hin as (i & -> & _). lia.
  - by apply Forall_replicate.
Qed.

End index.

Section search.
Import Py Faiss Retrieval.

Lemma row0_fmap {A B} (f : A → list B) (xq : list A) (x : A) (w : world) :
  xq !! 0%nat = Some x → row0 (f <$> xq) w = (Ok (f x), w).
Proof.
  intros Hx. unfold row0, lift.
  rewrite (list_getitem_nat (f <$> xq) 0 (f x)); [done|lia|].
  change (Z.to_nat 0) with 0%nat. by rewrite list_lookup_fmap, Hx.
Qed.

(** A search with a query that is not empty returns what the spec
    describes for the rows of the index search, adds these results to
    the heap as new objects and calls the embedder and the index once. *)
Lemma search_refines g query w recs qv :
  query ≠ EmptyString →
  embed_model g [query] !! 0%nat = Some qv →
  records (heap w) (mapping g) = Some recs →
  search g (Some query) w
  = (Ok (search_spec recs (search1 (index g) qv 5)),
     World (heap w ++ (PDict <$> search_spec recs (search1 (index g) qv 5)))
           (calls w ++ [Encode [query];
                        Search (embed_model g [query]) 5])).
Proof.
  intros Hq Hqv Hrecs. unfold search. cbn [default from_option].
  rewrite bool_decide_eq_false_2 by done.
  rewrite (bind_ok (called _) _ w tt
             (World (heap w) (calls w ++ [Encode [query]]))) by done.
  rewrite (bind_ok (called _) _ _ tt
             (World (heap w) ((calls w ++ [Encode [query]])
                              ++ [Search (embed_model g [query]) 5])))
    by done.
  unfold Faiss.search.
  rewrite (bind_ok _ _ _ _ _ (row0_fmap _ _ _ _ Hqv)).
  rewrite (bind_ok _ _ _ _ _ (row0_fmap _ _ _ _ Hqv)).
  rewrite zip_fst_snd.
  rewrite (bind_ok _ _ _ _ _
             (loop_spec _ recs _ (search1_labels _ _ _) []
                (World (heap w) _) Hrecs)).
  cbn [heap calls app].
  pose proof (jsonify_seq (search_spec recs (search1 (index g) qv 5))
                (heap w) []) as Hj.
  rewrite app_nil_r in Hj. rewrite Hj, <- app_assoc. reflexivity.
Qed.

(** With an empty query the route returns at once. *)
Lemma search_empty g q w :
  default EmptyString q = EmptyString → search g q w = (Ok [], w).
Proof. intros Hq. unfold search. by rewrite bool_decide_eq_true_2. Qed.

End search.

Section results.
Import Py Faiss Retrieval.
Implicit Types (recs : list (gmap string pyval)) (rows : list (Q * Z)).

(** The results, row by row: the record at the row's label with the
    row's distance and its similarity attached. *)
Lemma search_spec_rows recs rows :
  Forall (λ row : Q * Z, -1 ≤ row.2) rows →
  Forall2 (λ (row : Q * Z) item,
             ∃ r, recs !! Z.to_nat row.2 = Some r
                  ∧ item = <["similarity" :=
                               of_number (num_round (similarity row.1) 1)]>
                             (<["score" := PFloat row.1]> r))
          (filter (λ row, valid (length recs) row) rows)
          (search_spec recs rows).
Proof.
  induction 1 as [|row rows Hrow _ IH]; [constructor|].
  destruct (valid (length recs) row) eqn:Hv.
  - pose proof Hv as Hv'. unfold valid in Hv'.
    apply andb_true_iff in Hv' as [Hne Hlt].
    apply negb_true_iff, Z.eqb_neq in Hne. apply Z.ltb_lt in Hlt.
    destruct (lookup_lt_is_Some_2 recs (Z.to_nat row.2)) as [r Hr]; [lia|].
    rewrite (search_spec_cons_valid recs row rows
               (<["similarity" :=
                    of_number (num_round (similarity row.1) 1)]>
                  (<["score" := PFloat row.1]> r))); [|done|].
    + rewrite filter_cons_True by (by rewrite Hv). constructor; eauto.
    + unfold scored. by rewrite Hr.
  - rewrite search_spec_cons_invalid by done.
    rewrite filter_cons_False; [done|]. rewrite Hv. cbn. tauto.
Qed.

Lemma sublist_fmap {A B} (f : A → B) (l1 l2 : list A) :
  l1 `sublist_of` l2 → f <$> l1 `sublist_of` f <$> l2.
Proof. induction 1; csimpl; by constructor. Qed.

Lemma filter_valid_pad n k x :
  filter (λ row, valid n row) (replicate k (x, -1)) = [].
Proof.
  induction k as [|k IH]; [done|]. cbn [replicate].
  rewrite filter_cons_False; [done|]. unfold valid. cbn. tauto.
Qed.

(** The rows that are kept are rows of the ranking, in its order. *)
Lemma kept_sublist n index q k :
  filter (λ row, valid n row) (search1 index q k)
  `sublist_of` take k (ranked index q).
Proof.
  unfold search1. rewrite filter_app, filter_valid_pad, app_nil_r.
  apply sublist_filter.
Qed.

Lemma kept_sorted n index q k :
  StronglySorted Qle (filter (λ row, valid n row) (search1 index q k)).*1.
Proof.
  apply (StronglySorted_fmap _ closer); [apply closer_le|].
  eapply StronglySorted_sublist; [|apply ranked_sorted].
  etrans; [apply kept_sublist|apply sublist_take].
Qed.

Lemma kept_length n index q k :
  (length (filter (λ row, valid n row) (search1 index q k))
   ≤ k `min` (ntotal index `min` n))%nat.
Proof.
  pose proof (kept_sublist n index q k) as Hsub.
  pose proof (sublist_length _ _ Hsub) as Hlen.
  rewrite length_take, ranked_length in Hlen.
  assert ((filter (λ row, valid n row) (search1 index q k)).*2
          ⊆+ Z.of_nat <$> seq 0 n) as Hsubm;
    [|apply submseteq_length in Hsubm;
      rewrite !length_fmap, length_seq in Hsubm; lia].
  apply NoDup_submseteq.
  - apply (sublist_NoDup _ ((ranked index q).*2)).
    + rewrite ranked_labels. apply NoDup_fmap_2, NoDup_seq. apply _.
    + apply sublist_fmap. etrans; [exact Hsub|apply sublist_take].
  - intros i (row & -> & Hrow)%list_elem_of_fmap.
    pose proof (proj1 (list_elem_of_filter _ _ _) Hrow) as [Hv _].
    assert (row.2 ∈ (ranked index q).*2) as Hin.
    { apply list_elem_of_fmap_2. apply (elem_of_sublist _ _ _ Hrow).
      etrans; [apply kept_sublist|apply sublist_take]. }
    rewrite ranked_labels in Hin.
    apply list_elem_of_fmap in Hin as (j & Hj & _).
    apply Is_true_eq_true, andb_true_iff in Hv as [_ Hlt%Z.ltb_lt].
    apply list_elem_of_fmap. exists j. split; [done|].
    apply elem_of_seq. lia.
Qed.

Lemma Qsquare_nonneg (c : Q) : (0 <= c * c)%Q.
Proof.
  destruct (Qlt_le_dec c 0) as [Hc|Hc].
  - assert (c * c == (- c) * (- c))%Q as -> by ring.
    apply Qmult_le_0_compat; lra.
  - by apply Qmult_le_0_compat.
Qed.

Lemma sqdist_nonneg x y : (0 <= sqdist x y)%Q.
Proof.
  unfold sqdist. revert y.
  induction x as [|a x IH]; intros [|b y]; cbn; try apply Qle_refl.
  specialize (IH y). revert IH.
  generalize (foldr Qplus 0%Q (zip_with (λ a b, ((a - b) * (a - b))%Q) x y)).
  intros t Ht. pose proof (Qsquare_nonneg (a - b)). lra.
Qed.

(** The distances of the ranking are squared distances: none is
    negative. *)
Lemma kept_nonneg n index q k :
  Forall (λ row : Q * Z, (0 <= row.1)%Q)
         (filter (λ row, valid n row) (search1 index q k)).
Proof.
  apply Forall_forall. intros row Hrow.
  assert (row ∈ ranked index q) as Hin.
  { apply (elem_of_sublist _ _ _ Hrow).
    etrans; [apply kept_sublist|apply sublist_take]. }
  rewrite ranked_perm in Hin.
  apply list_elem_of_lookup in Hin as [i Hi].
  rewrite list_lookup_imap in Hi.
  destruct (xb index !! i) as [x|]; simplify_eq/=. apply sqdist_nonneg.
Qed.

End results.

(** At the two distances the spec names, the doubles give the same values
    as the exact numbers: 100 and 0, which rounding to one decimal keeps. *)
Lemma similarity_binary64_at_0_and_2 :
  Binary64.similarity (Binary64.of_Z 0) = Binary64.of_Z 100
  ∧ Binary64.similarity (Binary64.of_Z 2) = Binary64.of_Z 0.
Proof. split; vm_compute; reflexivity. Qed.

(** Claim C1. For every row that the search route keeps, the result holds
    the raw value [d] of the index under ["score"] and
    [round(max(0, 1 - d/2) * 100, 1)] under ["similarity"], and this value
    lies between 0 and 100. For every [d >= 0] the number stored has the
    value of the formula; it lies between 0 and 100; it is a number of
    tenths, at most 0.05 away from [max(0, 1 - d/2) * 100]; and it is the
    int [0], not a float, exactly from [d = 2] on. For [d = 0] it is a float
    of value 100, for [d = 2] the int [0]. Floats are exact rationals
    here. *)
Theorem similarity_percent_formula_and_bounds :
  (∀ g query w recs qv,
      query ≠ EmptyString →
      Retrieval.embed_model g [query] !! 0%nat = Some qv →
      Retrieval.records (Retrieval.heap w) (Retrieval.mapping g) = Some recs →
      ∃ out,
        (Retrieval.search g (Some query) w).1 = Ok out
        ∧ Forall2
            (λ (row : Q * Z) (item : gmap string Py.pyval),
               let s :=
                 Py.num_round
                   (Py.num_mul
                      (Py.num_max (Py.Int 0) (Py.Float (1 - row.1 / 2)))
                      (Py.Int 100)) 1 in
               item !! "score" = Some (Py.PFloat row.1)
               ∧ item !! "similarity" = Some (Py.of_number s)
               ∧ (0 <= Py.value s <= 100)%Q)
            (filter (λ row, Retrieval.valid (length recs) row)
                    (Faiss.search1 (Retrieval.index g) qv 5))
            out)
  ∧ (∀ d : Q, (0 <= d)%Q →
       let s :=
         Py.num_round
           (Py.num_mul (Py.num_max (Py.Int 0) (Py.Float (1 - d / 2)))
              (Py.Int 100)) 1 in
       let x := (Py.py_max 0 (1 - d / 2) * 100)%Q in
       (Py.value s == Py.py_round x 1)%Q
       ∧ (0 <= Py.value s <= 100)%Q
       ∧ (∃ k : Z, (Py.value s == inject_Z k / 10)%Q)
       ∧ (- (1 # 20) <= Py.value s - x <= 1 # 20)%Q
       ∧ (s = Py.Int 0 ↔ (2 <= d)%Q))
  ∧ (∃ v, Py.num_round
            (Py.num_mul (Py.num_max (Py.Int 0) (Py.Float (1 - 0 / 2)))
               (Py.Int 100)) 1 = Py.Float v
          ∧ (v == 100)%Q)
  ∧ Py.num_round
      (Py.num_mul (Py.num_max (Py.Int 0) (Py.Float (1 - 2 / 2)))
         (Py.Int 100)) 1 = Py.Int 0.
Proof.
  assert (∀ d : Q, (0 <= d)%Q →
            (0 <= Py.value (Py.num_round (Retrieval.similarity d) 1)
             <= 100)%Q) as Hbounds.
  { intros d Hd. rewrite value_rounded.
    apply py_round_1_bounds. by apply percent_bounds. }
  split; [|split; [|split]].
  - intros g query w recs qv Hq Hqv Hrecs.
    exists (Retrieval.search_spec recs
              (Faiss.search1 (Retrieval.index g) qv 5)).
    rewrite (search_refines g query w recs qv Hq Hqv Hrecs). split; [done|].
    pose proof (search_spec_rows recs _
                  (search1_labels (Retrieval.index g) qv 5)) as Hrows.
    pose proof (kept_nonneg (length recs) (Retrieval.index g) qv 5) as Hpos.
    revert Hrows Hpos.
    generalize (filter (λ row, Retrieval.valid (length recs) row)
                  (Faiss.search1 (Retrieval.index g) qv 5)).
    generalize (Retrieval.search_spec recs
                  (Faiss.search1 (Retrieval.index g) qv 5)).
    intros out kept Hrows.
    induction Hrows as [|row item kept out Hrow _ IH];
      intros Hpos; [constructor|].
    apply Forall_cons in Hpos as [Hd Hpos]. constructor; [|by apply IH].
    destruct Hrow as (r & _ & ->). cbn zeta. split; [|split].
    + by rewrite lookup_insert_ne, lookup_insert_eq.
    + by rewrite lookup_insert_eq.
    + by apply Hbounds.
  - intros d Hd. cbn zeta.
    change (Py.num_mul (Py.num_max (Py.Int 0) (Py.Float (1 - d / 2)))
              (Py.Int 100)) with (Retrieval.similarity d).
    split; [apply value_rounded|]. split; [by apply Hbounds|]. split; [|split].
    + exists (Py.round_half_even (Py.py_max 0 (1 - d / 2) * 100 * 10)).
      rewrite value_rounded. apply py_round_1_tenths.
    + rewrite value_rounded. apply py_round_1_near.
    + destruct (similarity_cases d) as [(Hfar & -> & _)|(Hnear & -> & _)].
      * done.
      * split; [done|]. intros Hfar. exfalso.
        apply (Qlt_not_le _ _ Hnear Hfar).
  - eexists. split; [reflexivity|reflexivity].
  - reflexivity.
Qed.

Lemma similarity_percent_formula_and_bounds_witness :
  ∃ out,
    (Retrieval.search Example.g (Some "gravity survey") Example.w).1 = Ok out
    ∧ Forall2
        (λ (row : Q * Z) (item : gmap string Py.pyval),
           let s :=
             Py.num_round
               (Py.num_mul
                  (Py.num_max (Py.Int 0) (Py.Float (1 - row.1 / 2)))
                  (Py.Int 100)) 1 in
           item !! "score" = Some (Py.PFloat row.1)
           ∧ item !! "similarity" = Some (Py.of_number s)
           ∧ (0 <= Py.value s <= 100)%Q)
        (filter (λ row, Retrieval.valid 2 row)
                (Faiss.search1 Example.index [1; 0]%Q 5))
        out.
Proof.
  apply (proj1 similarity_percent_formula_and_bounds
           Example.g "gravity survey" Example.w
           [Example.seismic; Example.gravity] [1; 0]%Q);
    [done|reflexivity|reflexivity].
Defined.

(** Claim C2. With a loaded mapping that is a list of records and a query
    that is not empty, the search route returns exactly the rows of the
    k-NN result ([k] is 5 in the code) whose label is not [-1] and is below
    [len(mapping)], each as the record at that position with the raw
    distance (and the similarity) attached, in the order of the index, so
    by non-decreasing distance; there are at most [min(k, corpus size)] of
    them, the corpus counted in the index or in the mapping. *)
Theorem search_returns_valid_rows_in_order
    (g : Retrieval.globals) (query : string) (w : Retrieval.world)
    (recs : list (gmap string Py.pyval)) (qv : Faiss.vec) :
  query ≠ EmptyString →
  Retrieval.embed_model g [query] !! 0%nat = Some qv →
  Retrieval.records (Retrieval.heap w) (Retrieval.mapping g) = Some recs →
  let rows := Faiss.search1 (Retrieval.index g) qv 5 in
  let kept := filter (λ row, Retrieval.valid (length recs) row) rows in
  ∃ out,
    (Retrieval.search g (Some query) w).1 = Ok out
    ∧ out = Retrieval.search_spec recs rows
    ∧ Forall2
        (λ (row : Q * Z) (item : gmap string Py.pyval),
           ∃ r, recs !! Z.to_nat row.2 = Some r
                ∧ item = <["similarity" :=
                             Py.of_number
                               (Py.num_round
                                  (Retrieval.similarity row.1) 1)]>
                           (<["score" := Py.PFloat row.1]> r))
        kept out
    ∧ StronglySorted Qle kept.*1
    ∧ (length out
       ≤ 5 `min` (Faiss.ntotal (Retrieval.index g) `min` length recs))%nat.
Proof.
  intros Hq Hqv Hrecs rows kept. exists (Retrieval.search_spec recs rows).
  rewrite (search_refines g query w recs qv Hq Hqv Hrecs).
  pose proof (search_spec_rows recs rows
                (search1_labels (Retrieval.index g) qv 5)) as Hrows.
  repeat split; try done.
  - apply kept_sorted.
  - rewrite <- (Forall2_length _ _ _ Hrows). apply kept_length.
Qed.

Lemma search_returns_valid_rows_in_order_witness :
  ∃ out,
    (Retrieval.search Example.g (Some "gravity survey") Example.w).1 = Ok out
    ∧ (length out ≤ 2)%nat.
Proof.
  destruct (search_returns_valid_rows_in_order
              Example.g "gravity survey" Example.w
              [Example.seismic; Example.gravity] [1; 0]%Q)
    as (out & Hout & _ & _ & _ & Hlen);
    [done|reflexivity|reflexivity|].
  exists out. split; [exact Hout|]. exact Hlen.
Defined.

(** Claim C5, as the code has it. For the empty query string, and when
    the request has no [q] at all, the search route returns an empty
    sequence without raising, and neither the embedder nor the index is
    called (the world is as before); the code has no parameter [k]. A
    query of white space only is not empty for [if not query]. *)
Theorem empty_query_returns_nothing
    (g : Retrieval.globals) (w : Retrieval.world) :
  Retrieval.search g (Some EmptyString) w = (Ok [], w)
  ∧ Retrieval.search g None w = (Ok [], w).
Proof. split; by apply search_empty. Qed.

(** Claim C5, as stated, fails for a blank query that is not empty: a
    single space is embedded and searched, and the records come back. *)
Lemma blank_query_is_searched :
  Retrieval.blank " " = true
  ∧ (∃ item out,
       (Retrieval.search Example.g (Some " ") Example.w).1
       = Ok (item :: out))
  ∧ Retrieval.calls (Retrieval.search Example.g (Some " ") Example.w).2
    = [Retrieval.Encode [" "]; Retrieval.Search [[1; 0]%Q] 5].
Proof.
  split; [reflexivity|].
  rewrite (search_refines Example.g " " Example.w
             [Example.seismic; Example.gravity] [1; 0]%Q);
    [|done|reflexivity|reflexivity].
  split; [|reflexivity]. vm_compute. eauto.
Qed.

(** Claim C9. Whatever the queries, a sequence of searches leaves every
    object that was on the heap as it was, so the mapping list and the
    records it refers to are after the searches what was loaded: the score
    and the similarity are set on a copy. The index is not part of what a
    search can write. *)
Theorem searches_leave_mapping_unchanged
    (g : Retrieval.globals) (qs : list (option string)) (w : Retrieval.world) :
  let w' := (Retrieval.serve g qs w).2 in
  (∀ l o, Retrieval.heap w !! l = Some o → Retrieval.heap w' !! l = Some o)
  ∧ (∀ recs,
       Retrieval.records (Retrieval.heap w) (Retrieval.mapping g) = Some recs →
       Retrieval.records (Retrieval.heap w') (Retrieval.mapping g) = Some recs).
Proof.
  cbn zeta. pose proof (serve_frame g qs w) as Hpre. split.
  - intros l o Hl. destruct Hpre as [ext ->]. by apply lookup_app_l_Some.
  - intros recs. by apply records_prefix.
Qed.

Lemma searches_leave_mapping_unchanged_witness :
  Retrieval.records
    (Retrieval.heap
       (Retrieval.serve Example.g [Some "gravity survey"; Some " "; None]
          Example.w).2)
    (Retrieval.mapping Example.g)
  = Some [Example.seismic; Example.gravity].
Proof.
  apply (proj2 (searches_leave_mapping_unchanged Example.g
                  [Some "gravity survey"; Some " "; None] Example.w)).
  reflexivity.
Defined.

(** ** The index builder *)

Section builder.
Import Py Faiss Builder.
Implicit Types (encode : list pyval → result (list vec))
  (data : list record) (dk : disk) (flt : fault).

(** Nothing is written before the index is held in memory. *)
Lemma main_build_raise encode flt data dk e :
  build encode data = Raise e → main encode flt data dk = (Raise e, dk).
Proof.
  intros Hb. unfold main. by rewrite (bind_raise _ _ dk e dk); rewrite ?Hb.
Qed.

Lemma main_build_ok encode flt data dk index :
  build encode data = Ok index →
  main encode flt data dk
  = (makedirs flt;; write_index flt index;; open_w flt;;
     json_dump flt data) dk.
Proof.
  intros Hb. unfold main. by rewrite (bind_ok _ _ dk index dk); rewrite ?Hb.
Qed.

(** A build that meets no failure leaves the pair of its data. *)
Lemma main_no_fault encode data dk index :
  build encode data = Ok index →
  main encode NoFault data dk = (Ok tt, Disk (Stored index) (Stored data)).
Proof. intros Hb. by rewrite (main_build_ok _ _ _ _ _ Hb). Qed.

(** With no record there is no second dimension to read. *)
Lemma build_empty encode :
  encode [] = Ok [] → build encode [] = Raise IndexError.
Proof. intros Hm. unfold build. cbn. by rewrite Hm. Qed.

End builder.

(** An index with no vector and a mapping with no record would be served
    without error: every rank holds the label [-1] and is skipped. *)
Lemma search_on_empty_corpus
    (model : list string → list Faiss.vec) (dimension : nat) (query : string)
    (qv : Faiss.vec) (w : Retrieval.world) (m : Py.loc) :
  query ≠ EmptyString → model [query] !! 0%nat = Some qv →
  Retrieval.heap w !! m = Some (Py.PList []) →
  (Retrieval.search (Retrieval.Globals model (Faiss.new dimension) m)
     (Some query) w).1 = Ok [].
Proof.
  intros Hq Hqv Hm.
  rewrite (search_refines
             (Retrieval.Globals model (Faiss.new dimension) m)
             query w [] qv Hq Hqv); [done|].
  unfold Retrieval.records. cbn. by rewrite Hm.
Qed.

(** Claim C6 fails on the code. With no record, [model.encode([])] is an
    empty array of shape [(0,)], [embeddings.shape[1]] raises [IndexError]
    and [main] ends there: no index and no mapping is written. *)
Theorem build_fails_on_empty_records
    (encode : list Py.pyval → result (list Faiss.vec)) (flt : Builder.fault)
    (dk : Builder.disk) :
  encode [] = Ok [] →
  Builder.main encode flt [] dk = (Raise IndexError, dk).
Proof. intros Hm. by apply main_build_raise, build_empty. Qed.

Lemma build_fails_on_empty_records_witness :
  Builder.main Example.encode Builder.NoFault []
    (Builder.Disk Builder.Missing Builder.Missing)
  = (Raise IndexError, Builder.Disk Builder.Missing Builder.Missing).
Proof. apply build_fails_on_empty_records. reflexivity. Defined.

(** Claim C7, as the code has it. When an I/O call fails while the index
    and the mapping are persisted, [main] ends with the error of that call
    ([OSError] from [os.makedirs], [open] and [json.dump], [RuntimeError]
    from [faiss.write_index]), and the files are as the calls before it
    left them: both as they were if the directory cannot be made or the
    index file cannot be opened; the index incomplete and the mapping as
    it was if the index write fails; the new index beside the previous
    mapping if the mapping file cannot be opened; the new index beside an
    incomplete mapping if the dump fails. Without a failure both hold the
    new build. *)
Theorem failed_persist_outcome
    (encode : list Py.pyval → result (list Faiss.vec))
    (data : list Builder.record)
    (index : Faiss.IndexFlatL2) (dk : Builder.disk) (flt : Builder.fault) :
  Builder.build encode data = Ok index →
  Builder.main encode flt data dk
  = match flt with
    | Builder.NoFault =>
        (Ok tt, Builder.Disk (Builder.Stored index) (Builder.Stored data))
    | Builder.FailMakedirs => (Raise OSError, dk)
    | Builder.FailOpenIndex => (Raise RuntimeError, dk)
    | Builder.FailWriteIndex =>
        (Raise RuntimeError,
         Builder.Disk Builder.Partial (Builder.mapping_file dk))
    | Builder.FailOpenMapping =>
        (Raise OSError,
         Builder.Disk (Builder.Stored index) (Builder.mapping_file dk))
    | Builder.FailDumpMapping =>
        (Raise OSError,
         Builder.Disk (Builder.Stored index) Builder.Partial)
    end.
Proof.
  intros Hb. rewrite (main_build_ok _ _ _ _ _ Hb). by destruct flt.
Qed.

Lemma failed_persist_outcome_witness :
  Builder.main Example.encode Builder.FailOpenIndex
    [Example.seismic; Example.gravity]
    (Builder.Disk Builder.Missing Builder.Missing)
  = (Raise RuntimeError, Builder.Disk Builder.Missing Builder.Missing).
Proof.
  apply (failed_persist_outcome Example.encode
           [Example.seismic; Example.gravity]
           {| Faiss.d := 2; Faiss.xb := [[1; 0]%Q; [1; 0]%Q] |}
           (Builder.Disk Builder.Missing Builder.Missing)
           Builder.FailOpenIndex).
  reflexivity.
Defined.

(** Claim C7, as stated, fails: the index is written in place before the
    mapping file is opened, so when that open fails the new index is on
    disk beside the mapping of the previous build. *)
Lemma failed_mapping_write_leaves_mismatched_pair :
  let old := [Example.seismic] in
  let new := [Example.seismic; Example.gravity] in
  let index_old := {| Faiss.d := 2; Faiss.xb := [[1; 0]%Q] |} in
  let index_new := {| Faiss.d := 2; Faiss.xb := [[1; 0]%Q; [1; 0]%Q] |} in
  Builder.pair_of Example.encode old
    (Builder.Disk (Builder.Stored index_old) (Builder.Stored old))
  ∧ Builder.build Example.encode new = Ok index_new
  ∧ Builder.main Example.encode Builder.FailOpenMapping new
      (Builder.Disk (Builder.Stored index_old) (Builder.Stored old))
    = (Raise OSError,
       Builder.Disk (Builder.Stored index_new) (Builder.Stored old))
  ∧ index_new ≠ index_old.
Proof.
  cbn zeta. split; [|split; [|split]].
  - eexists. split; reflexivity.
  - reflexivity.
  - reflexivity.
  - discriminate.
Qed.

(** ** The download route *)

Section downloads.
Import JSON Counter Downloads.
Implicit Types (raw : gset string) (fl : stats_file) (f g : string).

Lemma download_file_missing raw f fl :
  f ∉ raw → download_file raw f fl = (Ok NotFound, fl).
Proof. intros Hf. unfold download_file. by rewrite decide_False. Qed.

Lemma download_file_present raw f fl :
  f ∈ raw → is_store fl = true →
  download_file raw f fl
  = (Ok (Sent f),
     Json (JObject (dict_set (stored fl) f (JInt (count (stored fl) f + 1))))).
Proof.
  intros Hf Hp. unfold download_file. rewrite decide_True by done.
  by rewrite (bind_ok _ _ _ _ _ (increment_download_stored fl f Hp)).
Qed.

Lemma download_file_store raw f fl :
  is_store fl = true → is_store (download_file raw f fl).2 = true.
Proof.
  intros Hp. destruct (decide (f ∈ raw)).
  - rewrite download_file_present by done. by apply is_store_set.
  - by rewrite download_file_missing.
Qed.

Lemma hits_cons raw g f fs :
  hits raw g (f :: fs)
  = ((if bool_decide (f = g ∧ f ∈ raw) then 1 else 0) + hits raw g fs)%nat.
Proof.
  unfold hits. case_bool_decide.
  - by rewrite filter_cons_True.
  - by rewrite filter_cons_False.
Qed.

(** The entry of [g] after one request for [f]. *)
Lemma download_file_lookup raw f g fl :
  is_store fl = true →
  dict_get (stored (download_file raw f fl).2) g
  = if bool_decide (f = g ∧ f ∈ raw)
    then Some (JInt (count (stored fl) g + 1))
    else dict_get (stored fl) g.
Proof.
  intros Hp. destruct (decide (f ∈ raw)) as [Hf|Hf].
  - rewrite download_file_present by done. cbn [snd stored].
    case_bool_decide as Hfg.
    + destruct Hfg as [-> _]. by rewrite dict_get_set_eq.
    + rewrite dict_get_set_ne; [done|]. intros Heq. apply Hfg. by split.
  - rewrite download_file_missing by done. cbn [snd].
    rewrite bool_decide_eq_false_2; [done|]. by intros [_ ?].
Qed.

(** A run of requests on a counter store: no request raises, and each
    entry is what it was, raised by the requests that count. *)
Lemma downloads_run raw fs :
  ∀ fl, is_store fl = true →
    ∃ rs fl',
      downloads raw fs fl = (Ok rs, fl')
      ∧ is_store fl' = true
      ∧ rs = (λ f, if bool_decide (f ∈ raw) then Sent f else NotFound) <$> fs
      ∧ ∀ g, dict_get (stored fl') g
             = match hits raw g fs with
               | O => dict_get (stored fl) g
               | S _ =>
                   Some (JInt (count (stored fl) g
                               + Z.of_nat (hits raw g fs)))
               end.
Proof.
  induction fs as [|f fs IH]; intros fl Hp.
  { exists [], fl. by repeat split. }
  pose proof (download_file_store raw f fl Hp) as Hp1.
  destruct (IH _ Hp1) as (rs & fl' & Hrun & Hp' & Hrs & Hlook).
  exists ((if bool_decide (f ∈ raw) then Sent f else NotFound) :: rs), fl'.
  split; [|split; [done|split; [by rewrite Hrs|]]].
  - cbn [downloads].
    destruct (download_file raw f fl) as [r fl1] eqn:Hd. cbn [snd] in *.
    assert (r = Ok (if bool_decide (f ∈ raw) then Sent f else NotFound))
      as ->.
    { case_bool_decide.
      - rewrite download_file_present in Hd by done. by simplify_eq.
      - rewrite download_file_missing in Hd by done. by simplify_eq. }
    rewrite (bind_ok _ _ _ _ _ Hd), (bind_ok _ _ _ _ _ Hrun). done.
  - intros g. rewrite Hlook, hits_cons.
    pose proof (download_file_lookup raw f g fl Hp) as Hg.
    unfold count at 1. rewrite Hg.
    case_bool_decide; destruct (hits raw g fs) as [|k] eqn:Hk; cbn;
      try done.
    all: do 2 f_equal; lia.
Qed.

End downloads.

Section downloads_more.
Import JSON Counter Downloads.
Implicit Types (raw : gset string) (fl : stats_file) (f g : string).


Lemma hits_perm raw g fs fs' : fs ≡ₚ fs' → hits raw g fs = hits raw g fs'.
Proof. intros Hp. unfold hits. by rewrite Hp. Qed.

End downloads_more.





(** Property X3. The counts after a run of download requests do not
    depend on the order in which the requests were handled: the stats
    files of two orders hold the same value for every key. (They need not
    be the same text: a key is written where it was first counted.) *)
Theorem downloads_order_does_not_matter
    (raw : gset string) (fs fs' : list string) (fl : Counter.stats_file)
    (g : string) :
  Counter.is_store fl = true → fs ≡ₚ fs' →
  JSON.dict_get (Counter.stored (Downloads.downloads raw fs fl).2) g
  = JSON.dict_get (Counter.stored (Downloads.downloads raw fs' fl).2) g.
Proof.
  intros Hp Hperm.
  destruct (downloads_run raw fs fl Hp) as (rs & fl1 & -> & _ & _ & H1).
  destruct (downloads_run raw fs' fl Hp) as (rs' & fl2 & -> & _ & _ & H2).
  cbn [snd]. by rewrite H1, H2, (hits_perm raw g fs fs' Hperm).
Qed.

Lemma downloads_order_does_not_matter_witness :
  JSON.dict_get
    (Counter.stored
       (Downloads.downloads {["a.h5"; "b.nc"]} ["a.h5"; "b.nc"; "a.h5"]
          Counter.Absent).2) "a.h5"
  = JSON.dict_get
      (Counter.stored
         (Downloads.downloads {["a.h5"; "b.nc"]} ["b.nc"; "a.h5"; "a.h5"]
            Counter.Absent).2) "a.h5".
Proof.
  apply downloads_order_does_not_matter; [reflexivity|].
  apply perm_swap.
Defined.

(** The order of the requests does show in the file: the keys stand in
    the order in which they were first counted. *)
Lemma downloads_order_shows_in_the_file :
  (Downloads.downloads {["a.h5"; "b.nc"]} ["a.h5"; "b.nc"; "a.h5"]
     Counter.Absent).2
  = Counter.Json
      (JSON.JObject [("a.h5", JSON.JInt 2); ("b.nc", JSON.JInt 1)])
  ∧ (Downloads.downloads {["a.h5"; "b.nc"]} ["b.nc"; "a.h5"; "a.h5"]
       Counter.Absent).2
    = Counter.Json
        (JSON.JObject [("b.nc", JSON.JInt 1); ("a.h5", JSON.JInt 2)]).
Proof. split; vm_compute; reflexivity. Qed.

(** Property X4. While the stats file is not JSON, a run of download
    requests ends with [JSONDecodeError] at the first request for a name
    under [data/raw], before anything is sent for it; requests for other
    names get their 404; and no request repairs or replaces the file. *)
Theorem downloads_blocked_by_unparseable_stats
    (raw : gset string) (fs : list string) :
  Downloads.downloads raw fs Counter.Unparseable
  = (if bool_decide (Exists (λ f, f ∈ raw) fs)
     then Raise JSONDecodeError
     else Ok ((λ _, Downloads.NotFound) <$> fs),
     Counter.Unparseable).
Proof.
  induction fs as [|f fs IH].
  { rewrite bool_decide_eq_false_2; [done|]. by intros ?%Exists_nil. }
  cbn [Downloads.downloads]. unfold Downloads.download_file at 1.
  destruct (decide (f ∈ raw)) as [Hf|Hf].
  - rewrite bool_decide_eq_true_2 by (by left).
    rewrite (bind_raise (_ ≫= _) _ Counter.Unparseable JSONDecodeError
               Counter.Unparseable); [done|].
    by rewrite (bind_raise _ _ _ _ _ (increment_download_unparseable f)).
  - rewrite (bind_ok (mret _) _ Counter.Unparseable Downloads.NotFound
               Counter.Unparseable) by done.
    rewrite (bool_decide_ext _ (Exists (λ f, f ∈ raw) fs))
      by (rewrite Exists_cons; split; [intros [?|?]; done|by right]).
    case_bool_decide.
    + by rewrite (bind_raise _ _ _ _ _ IH).
    + by rewrite (bind_ok _ _ _ _ _ IH).
Qed.

(** ** More on the search and dataset routes *)

Section routes.
Import Py Faiss Retrieval.
Implicit Types (w : world) (h : list pyobj)
  (recs : list (gmap string pyval)).

Lemma search_calls g q w :
  calls (search g q w).2
  = calls w ++ (if bool_decide (default EmptyString q = EmptyString) then []
                else [Encode [default EmptyString q];
                      Search (embed_model g [default EmptyString q]) 5]).
Proof.
  unfold search. case_bool_decide.
  { rewrite jsonify_pure. by rewrite app_nil_r. }
  unfold mbind, M_bind, bind, called; cbn.
  destruct (list_getitem _ 0) as [D0|e]; [|by rewrite <- app_assoc].
  destruct (list_getitem _ 0) as [I0|e]; [|by rewrite <- app_assoc].
  match goal with |- context [loop ?m ?rows ?r ?w1] =>
    destruct (loop_frame m rows r w1) as (ext & _ & Hcs);
    destruct (loop m rows r w1) as [[results|e] w2] eqn:Hloop end;
    cbn in Hcs.
  - rewrite jsonify_pure, Hcs. by rewrite <- app_assoc.
  - cbn [snd]. rewrite Hcs. by rewrite <- app_assoc.
Qed.

(** [jsonify] of references to dicts gives the dicts. *)
Lemma jsonify_dicts h cs (xs : list pyval) recs :
  Forall2 (λ v d, as_dict h v = Some d) xs recs →
  jsonify (omap (λ v, match v with PRef l => Some l | _ => None end) xs)
          (World h cs)
  = (Ok recs, World h cs).
Proof.
  induction 1 as [|v d xs recs Hv _ IH]; [done|].
  destruct v as [| | | | |l]; try done. cbn in Hv.
  destruct (h !! l) as [[d'|]|] eqn:Hl; simplify_eq. cbn [omap list_omap].
  cbn [jsonify].
  rewrite (bind_ok _ _ _ (PDict d) (World h cs)) by (by apply deref_Some).
  by rewrite (bind_ok _ _ _ _ _ IH).
Qed.

Lemma get_datasets_records g w recs :
  records (heap w) (mapping g) = Some recs → get_datasets g w = (Ok recs, w).
Proof.
  intros (xs & Hm & Hxs)%records_inv. unfold get_datasets.
  rewrite (bind_ok _ _ _ _ _ (deref_Some _ _ _ Hm)).
  destruct w as [h cs]. by apply jsonify_dicts.
Qed.

End routes.

(** Property X5. Whatever the mapping holds, and also when the route ends
    with an exception, a search with a query that is not empty calls the
    embedder once, with the query alone, then the index once, with the
    embedded query and [k = 5]; with an empty query it calls neither. *)
Theorem search_calls_embedder_and_index_once
    (g : Retrieval.globals) (q : option string) (w : Retrieval.world) :
  Retrieval.calls (Retrieval.search g q w).2
  = Retrieval.calls w
    ++ match q with
       | None | Some EmptyString => []
       | Some query =>
           [Retrieval.Encode [query];
            Retrieval.Search (Retrieval.embed_model g [query]) 5]
       end.
Proof.
  rewrite search_calls. destruct q as [[|c query]|]; reflexivity.
Qed.

(** Property X6. A search changes nothing that a later request reads:
    after any sequence of searches, the same query gets the same response
    as before, and [/datasets] still returns the records as they were
    loaded, without the score and the similarity that searches attached to
    their results. *)
Theorem responses_do_not_depend_on_earlier_searches
    (g : Retrieval.globals) (qs : list (option string)) (q : option string)
    (w : Retrieval.world) (recs : list (gmap string Py.pyval)) :
  Retrieval.records (Retrieval.heap w) (Retrieval.mapping g) = Some recs →
  (∀ query, Retrieval.embed_model g [query] ≠ []) →
  let w' := (Retrieval.serve g qs w).2 in
  (Retrieval.search g q w').1 = (Retrieval.search g q w).1
  ∧ (Retrieval.get_datasets g w').1 = Ok recs
  ∧ (Retrieval.get_datasets g w).1 = Ok recs.
Proof.
  intros Hrecs Hmodel w'.
  assert (Retrieval.records (Retrieval.heap w') (Retrieval.mapping g)
          = Some recs) as Hrecs'.
  { eapply records_prefix; [apply serve_frame|done]. }
  split; [|split; by rewrite (get_datasets_records _ _ recs)].
  destruct (decide (default EmptyString q = EmptyString)) as [Hq|Hq].
  { by rewrite !search_empty. }
  destruct q as [query|]; [|done]. cbn in Hq.
  destruct (Retrieval.embed_model g [query]) as [|qv xq] eqn:Hxq.
  { by destruct (Hmodel query). }
  rewrite (search_refines g query w' recs qv), (search_refines g query w recs qv);
    try done; by rewrite Hxq.
Qed.

Lemma responses_do_not_depend_on_earlier_searches_witness :
  (Retrieval.search Example.g (Some "gravity survey")
     (Retrieval.serve Example.g [Some "ocean"; Some "gravity survey"]
        Example.w).2).1
  = (Retrieval.search Example.g (Some "gravity survey") Example.w).1.
Proof.
  apply (responses_do_not_depend_on_earlier_searches Example.g
           [Some "ocean"; Some "gravity survey"] (Some "gravity survey")
           Example.w [Example.seismic; Example.gravity]);
    [reflexivity|done].
Defined.

(** ** The similarity against the distance *)

Section ranking.
Import Py Faiss Retrieval.
Local Open Scope Q_scope.

Lemma round_half_even_range x :
  (Qfloor x ≤ round_half_even x ≤ Qfloor x + 1)%Z.
Proof.
  unfold round_half_even.
  destruct (x - inject_Z (Qfloor x) ?= 1 # 2);
    [destruct (Z.even (Qfloor x))|..]; lia.
Qed.

(** Rounding to the nearest integer keeps the order. *)
Lemma round_half_even_mono x y :
  x <= y → (round_half_even x ≤ round_half_even y)%Z.
Proof.
  intros Hxy. pose proof (Qfloor_resp_le _ _ Hxy) as Hfl.
  destruct (decide (Qfloor x = Qfloor y)) as [Heq|Hne].
  - unfold round_half_even. rewrite <- Heq.
    destruct (x - inject_Z (Qfloor x) ?= 1 # 2) eqn:Ex;
      destruct (y - inject_Z (Qfloor x) ?= 1 # 2) eqn:Ey;
      try (destruct (Z.even (Qfloor x))); try lia; exfalso;
      first [apply Qeq_alt in Ex|apply Qlt_alt in Ex|apply Qgt_alt in Ex];
      first [apply Qeq_alt in Ey|apply Qlt_alt in Ey|apply Qgt_alt in Ey];
      lra.
  - pose proof (round_half_even_range x). pose proof (round_half_even_range y).
    lia.
Qed.

Lemma py_round_mono x y n : x <= y → py_round x n <= py_round y n.
Proof.
  intros Hxy. unfold py_round.
  assert (0 < inject_Z (10 ^ Z.of_nat n)) as Hp.
  { change 0 with (inject_Z 0). rewrite <- Zlt_Qlt.
    apply Z.pow_pos_nonneg; lia. }
  apply Qmult_le_compat_r; [|apply Qinv_le_0_compat; lra].
  rewrite <- Zle_Qle. apply round_half_even_mono.
  apply Qmult_le_compat_r; [done|lra].
Qed.

Lemma py_max_0_mono x y : x <= y → py_max 0 x <= py_max 0 y.
Proof.
  intros Hxy. unfold py_max.
  destruct (Qle_bool x 0) eqn:Ex; destruct (Qle_bool y 0) eqn:Ey;
    try apply Qle_bool_iff in Ex; try apply Qle_bool_iff in Ey; try lra.
  apply Qnot_lt_le. intros Hlt. apply Qlt_le_weak, Qle_bool_iff in Hlt.
  congruence.
Qed.

Lemma percent_antitone d1 d2 :
  d1 <= d2 → py_max 0 (1 - d2 / 2) * 100 <= py_max 0 (1 - d1 / 2) * 100.
Proof.
  intros Hd.
  assert (d1 / 2 <= d2 / 2) as Hhalf.
  { apply Qmult_le_compat_r; [done|]. by apply Qinv_le_0_compat. }
  assert (1 - d2 / 2 <= 1 - d1 / 2) as H.
  { revert Hhalf. generalize (d1 / 2) (d2 / 2). intros a b Hab. lra. }
  pose proof (py_max_0_mono _ _ H) as Hmax. revert Hmax.
  generalize (py_max 0 (1 - d2 / 2)) (py_max 0 (1 - d1 / 2)).
  intros a b Hab. lra.
Qed.

Lemma rounded_antitone d1 d2 :
  d1 <= d2 →
  value (num_round (similarity d2) 1) <= value (num_round (similarity d1) 1).
Proof.
  intros Hd. rewrite !value_rounded. by apply py_round_mono, percent_antitone.
Qed.

Lemma similarity_far d : 2 <= d → num_round (similarity d) 1 = Int 0.
Proof.
  intros Hd. destruct (similarity_cases d) as [(_ & -> & _)|(Hlt & _)]; [done|].
  exfalso. apply (Qlt_not_le _ _ Hlt Hd).
Qed.

Lemma similarities_sorted (rows : list (Q * Z)) :
  StronglySorted Qle rows.*1 →
  StronglySorted (λ a b : number, value b <= value a)
    ((λ row : Q * Z, num_round (similarity row.1) 1) <$> rows).
Proof.
  intros Hs.
  apply (StronglySorted_fmap (λ d, num_round (similarity d) 1) Qle
           (λ a b : number, value b <= value a)) in Hs.
  - by rewrite <- list_fmap_compose in Hs.
  - intros d1 d2 Hd. by apply rounded_antitone.
Qed.

End ranking.

(** Property X7. The similarity never grows with the distance and is the
    int 0 for every distance of 2 or more, so the results of a search,
    which come by non-decreasing distance, are listed by non-increasing
    similarity. *)
Theorem similarity_ranks_like_distance :
  (∀ d1 d2 : Q,
      (d1 <= d2)%Q →
      (Py.value (Py.num_round (Retrieval.similarity d2) 1)
       <= Py.value (Py.num_round (Retrieval.similarity d1) 1))%Q)
  ∧ (∀ d : Q, (2 <= d)%Q →
       Py.num_round (Retrieval.similarity d) 1 = Py.Int 0)
  ∧ (∀ g query w recs qv,
        query ≠ EmptyString →
        Retrieval.embed_model g [query] !! 0%nat = Some qv →
        Retrieval.records (Retrieval.heap w) (Retrieval.mapping g)
        = Some recs →
        ∃ out sims,
          (Retrieval.search g (Some query) w).1 = Ok out
          ∧ Forall2 (λ (item : gmap string Py.pyval) (s : Py.number),
                       item !! "similarity" = Some (Py.of_number s))
              out sims
          ∧ StronglySorted
              (λ a b : Py.number, (Py.value b <= Py.value a)%Q) sims).
Proof.
  split; [exact rounded_antitone|split; [exact similarity_far|]].
  intros g query w recs qv Hq Hqv Hrecs.
  set (kept := filter (λ row, Retrieval.valid (length recs) row)
                 (Faiss.search1 (Retrieval.index g) qv 5)).
  exists (Retrieval.search_spec recs (Faiss.search1 (Retrieval.index g) qv 5)),
    ((λ row : Q * Z, Py.num_round (Retrieval.similarity row.1) 1) <$> kept).
  rewrite (search_refines g query w recs qv Hq Hqv Hrecs).
  split; [done|split].
  - apply Forall2_fmap_r, Forall2_flip.
    eapply Forall2_impl;
      [apply search_spec_rows, search1_labels|].
    intros row item (r & _ & ->). cbn. by rewrite lookup_insert_eq.
  - apply similarities_sorted, kept_sorted.
Qed.

Lemma similarity_ranks_like_distance_witness :
  (Py.value (Py.num_round (Retrieval.similarity 2) 1)
   <= Py.value (Py.num_round (Retrieval.similarity 0) 1))%Q.
Proof.
  apply (proj1 similarity_ranks_like_distance 0%Q 2%Q). done.
Defined.

(** ** The builder and the service together *)

Section alignment.
Import Py Faiss Builder.
Implicit Types (encode : list pyval → result (list vec))
  (data : list record) (vs : list pyval).

Lemma descriptions_Forall2 data vs :
  descriptions data = Ok vs ↔
  Forall2 (λ (r : record) v, r !! "description" = Some v) data vs.
Proof.
  revert vs. induction data as [|r data IH]; intros vs; cbn [descriptions].
  { split; [intros [= <-]; constructor|by intros ->%Forall2_nil_inv_l]. }
  unfold description. split.
  - destruct (r !! "description") as [v|] eqn:Hr; [|done].
    destruct (descriptions data) as [vs'|e] eqn:Hd; [|done].
    intros [= <-]. constructor; [done|]. by apply IH.
  - intros (v & vs' & Hr & Hvs & ->)%Forall2_cons_inv_l.
    rewrite Hr. apply IH in Hvs. by rewrite Hvs.
Qed.

(** When every record holds a string there, these are the values. *)
Lemma descriptions_strings data (ds : list string) :
  Forall2 (λ (r : record) s, r !! "description" = Some (PStr s)) data ds →
  descriptions data = Ok (PStr <$> ds).
Proof. intros Hds. by apply descriptions_Forall2, Forall2_fmap_r. Qed.

(** The first record without the key ends the comprehension, whatever
    the other records hold. *)
Lemma descriptions_missing_key data :
  Exists (λ r : record, r !! "description" = None) data →
  descriptions data = Raise KeyError.
Proof.
  induction data as [|r data IH]; intros Hex; [by apply Exists_nil in Hex|].
  cbn [descriptions]. unfold description.
  destruct (r !! "description") as [v|] eqn:Hr; [|done].
  apply Exists_cons in Hex as [Hex|Hex]; [congruence|].
  by rewrite (IH Hex).
Qed.

Lemma filter_all {A} (P : A → Prop) `{!∀ x, Decision (P x)} (l : list A) :
  Forall P l → filter P l = l.
Proof.
  induction 1 as [|x l Hx _ IH]; [done|].
  by rewrite filter_cons_True, IH.
Qed.

(** A row of the ranking holds the distance of the query to the vector at
    its label. *)
Lemma ranked_rows index q (row : Q * Z) :
  row ∈ ranked index q →
  ∃ i x, xb index !! i = Some x ∧ row = (sqdist x q, Z.of_nat i).
Proof.
  rewrite ranked_perm. intros [i Hi]%list_elem_of_lookup.
  rewrite list_lookup_imap in Hi.
  destruct (xb index !! i) as [x|] eqn:Hx; simplify_eq/=. by exists i, x.
Qed.

(** A build of records that all have a description, with an embedder that
    gives a vector per text, holds these vectors in the order of the
    records. *)
Lemma build_rows encode data vs (xs : list vec) :
  data ≠ [] →
  descriptions data = Ok vs →
  encode vs = Ok xs →
  length xs = length vs →
  ∃ dimension,
    build encode data = Ok {| d := dimension; xb := xs |}
    ∧ ntotal {| d := dimension; xb := xs |} = length data.
Proof.
  intros Hne Hvs Henc Hlen. unfold build. rewrite Hvs, Henc.
  pose proof (Forall2_length _ _ _ (proj1 (descriptions_Forall2 _ _) Hvs))
    as Hlen'.
  destruct xs as [|x xs].
  { destruct data; [done|]. cbn in *. lia. }
  exists (length x). split; [done|]. unfold ntotal. cbn [xb]. lia.
Qed.

End alignment.

Section alignment_more.
Import Py Faiss Builder.

(** With as many records as vectors, every filled rank of the index search
    is kept. *)
Lemma kept_all n index q k :
  (ntotal index ≤ n)%nat →
  filter (λ row, Retrieval.valid n row) (search1 index q k)
  = take k (ranked index q).
Proof.
  intros Hn. unfold search1. rewrite filter_app, filter_valid_pad, app_nil_r.
  apply filter_all, Forall_take, Forall_forall. intros row Hrow.
  destruct (ranked_rows _ _ _ Hrow) as (i & x & Hx & ->).
  apply lookup_lt_Some in Hx. unfold ntotal in Hn.
  unfold Retrieval.valid. cbn [snd]. apply Is_true_eq_left, andb_true_iff.
  split; [apply negb_true_iff, Z.eqb_neq|apply Z.ltb_lt]; lia.
Qed.

End alignment_more.

(** Property X8. When the service runs on what a build wrote, a search
    returns the record at the position at which its description was
    embedded: for records that all have a string as description and an
    embedder that gives one vector per text, the same for the builder and
    for the service, each result is a record of the build, with the
    squared distance between the embedded query and the vector that the
    build embedded at the record's position; and there are exactly
    [min(5, number of records)] results, however far they are. *)
Theorem search_returns_the_embedded_records
    (model : list string → list Faiss.vec)
    (encode : list Py.pyval → result (list Faiss.vec))
    (data : list Builder.record)
    (ds : list string) (m : Py.loc) (query : string) (qv : Faiss.vec)
    (w : Retrieval.world) :
  data ≠ [] →
  Builder.descriptions data = Ok (Py.PStr <$> ds) →
  encode (Py.PStr <$> ds) = Ok (model ds) →
  length (model ds) = length ds →
  query ≠ EmptyString →
  model [query] !! 0%nat = Some qv →
  Retrieval.records (Retrieval.heap w) m = Some data →
  ∃ index out,
    Builder.build encode data = Ok index
    ∧ (Retrieval.search (Retrieval.Globals model index m) (Some query) w).1
      = Ok out
    ∧ length out = (5 `min` length data)%nat
    ∧ Forall
        (λ item : gmap string Py.pyval,
           ∃ i r v,
             data !! i = Some r ∧ model ds !! i = Some v
             ∧ item = <["similarity" :=
                          Py.of_number
                            (Py.num_round
                               (Retrieval.similarity
                                  (Faiss.sqdist v qv)) 1)]>
                        (<["score" := Py.PFloat (Faiss.sqdist v qv)]> r))
        out.
Proof.
  intros Hne Hds Henc Hlen Hq Hqv Hrecs.
  destruct (build_rows encode data _ (model ds) Hne Hds Henc)
    as (dim & Hbuild & Hn); [by rewrite length_fmap|].
  set (index := {| Faiss.d := dim; Faiss.xb := model ds |}) in *.
  exists index, (Retrieval.search_spec data (Faiss.search1 index qv 5)).
  split; [done|].
  rewrite (search_refines (Retrieval.Globals model index m) query w data qv
             Hq Hqv Hrecs).
  pose proof (search_spec_rows data _ (search1_labels index qv 5)) as Hrows.
  rewrite (kept_all (length data) index qv 5) in Hrows by lia.
  split; [done|split].
  - rewrite <- (Forall2_length _ _ _ Hrows), length_take, ranked_length. lia.
  - apply Forall_forall. intros item [j Hj]%list_elem_of_lookup.
    destruct (Forall2_lookup_r _ _ _ _ _ Hrows Hj)
      as (row & Hrow & r & Hr & ->).
    assert (row ∈ Faiss.ranked index qv) as Hin.
    { eapply elem_of_sublist; [|apply (sublist_take _ 5)].
      apply list_elem_of_lookup. by exists j. }
    destruct (ranked_rows _ _ _ Hin) as (i & v & Hv & ->).
    cbn [fst snd] in *. rewrite Nat2Z.id in Hr. by exists i, r, v.
Qed.

Lemma search_returns_the_embedded_records_witness :
  ∃ index out,
    Builder.build Example.encode [Example.seismic; Example.gravity]
    = Ok index
    ∧ (Retrieval.search (Retrieval.Globals Example.model index 2%nat)
         (Some "gravity survey") Example.w).1 = Ok out
    ∧ length out = 2%nat.
Proof.
  destruct (search_returns_the_embedded_records Example.model Example.encode
              [Example.seismic; Example.gravity]
              ["seismic reflection profile"; "bouguer gravity anomaly"]
              2%nat "gravity survey" [1; 0]%Q Example.w)
    as (index & out & Hb & Hs & Hlen & _);
    [done|reflexivity|reflexivity|reflexivity|done|reflexivity|reflexivity|].
  exists index, out. by repeat split.
Defined.

(** Property X9. For records that all have a string as description, and
    at least one of them, and an embedder that gives one vector per text,
    a run of [main] that meets no I/O failure succeeds whatever the files
    held before, and leaves an index with one row per record, in the order
    of the records, beside a mapping that is the list of the records. *)
Theorem build_persists_aligned_pair
    (encode : list Py.pyval → result (list Faiss.vec))
    (data : list Builder.record)
    (ds : list string) (xs : list Faiss.vec) (dk : Builder.disk) :
  data ≠ [] →
  Forall2 (λ (r : Builder.record) s,
             r !! "description" = Some (Py.PStr s)) data ds →
  encode (Py.PStr <$> ds) = Ok xs →
  length xs = length ds →
  ∃ index,
    Builder.main encode Builder.NoFault data dk
    = (Ok tt, Builder.Disk (Builder.Stored index) (Builder.Stored data))
    ∧ Faiss.xb index = xs
    ∧ Faiss.ntotal index = length data.
Proof.
  intros Hne Hds%descriptions_strings Henc Hlen.
  destruct (build_rows encode data _ xs Hne Hds Henc)
    as (dim & Hbuild & Hn); [by rewrite length_fmap|].
  eexists. split; [by apply main_no_fault|]. by split.
Qed.

Lemma build_persists_aligned_pair_witness :
  ∃ index,
    Builder.main Example.encode Builder.NoFault
      [Example.seismic; Example.gravity]
      (Builder.Disk Builder.Partial Builder.Missing)
    = (Ok tt,
       Builder.Disk (Builder.Stored index)
         (Builder.Stored [Example.seismic; Example.gravity]))
    ∧ Faiss.ntotal index = 2%nat.
Proof.
  destruct (build_persists_aligned_pair Example.encode
              [Example.seismic; Example.gravity]
              ["seismic reflection profile"; "bouguer gravity anomaly"]
              [[1; 0]%Q; [1; 0]%Q]
              (Builder.Disk Builder.Partial Builder.Missing))
    as (index & Hmain & _ & Hn);
    [done|repeat constructor|reflexivity|reflexivity|].
  exists index. by split.
Defined.

(** Property X10. When a record has no ["description"], whatever the
    other records hold there, [main] raises [KeyError] while it collects
    the descriptions, before it embeds or writes anything: the files are
    as they were, whatever I/O failure would have been met later. *)
Theorem build_without_description_writes_nothing
    (encode : list Py.pyval → result (list Faiss.vec))
    (flt : Builder.fault)
    (data : list Builder.record) (dk : Builder.disk) :
  Exists (λ r : Builder.record, r !! "description" = None) data →
  Builder.main encode flt data dk = (Raise KeyError, dk).
Proof.
  intros Hex. apply main_build_raise. unfold Builder.build.
  by rewrite descriptions_missing_key.
Qed.

Lemma build_without_description_writes_nothing_witness :
  Builder.main Example.encode Builder.NoFault
    [{["description" := Py.PInt 5]}; {["file" := Py.PStr "x.nc"]}]
    (Builder.Disk Builder.Missing Builder.Missing)
  = (Raise KeyError, Builder.Disk Builder.Missing Builder.Missing).
Proof.
  apply build_without_description_writes_nothing.
  apply Exists_cons_tl, Exists_cons_hd. reflexivity.
Defined.

(** ** Concurrent calls for any files *)

Section requests.
Import JSON Counter Threads Requests.

Lemma thread_step_filename t fl lk t' fl' lk' :
  thread_step t fl lk = Some (t', fl', lk') → filename t' = filename t.
Proof.
  unfold thread_step, leave, lift. destruct t as [g p]; cbn.
  destruct p; try done.
  - destruct lk; intros; by simplify_eq/=.
  - destruct (load_stats fl) as [[?|?] ?]; intros; by simplify_eq/=.
  - destruct (update g stats) as [?|?]; intros; by simplify_eq/=.
  - destruct (open_w fl) as [[?|?] ?]; intros; by simplify_eq/=.
  - destruct (json_dump stats fl) as [[?|?] ?]; intros; by simplify_eq/=.
  - destruct (getitem stats g) as [?|?]; intros; by simplify_eq/=.
Qed.

(** What one action does to the lock: it is taken by a thread that enters
    the [with] block and released by the one that leaves it, also by an
    exception. *)
Lemma thread_step_lock t fl lk t' fl' lk' :
  (weight in_cs t ≤ held lk)%nat →
  thread_step t fl lk = Some (t', fl', lk') →
  (weight in_cs t' + held lk = weight in_cs t + held lk')%nat
  ∧ (held lk ≤ weight in_cs t)%nat.
Proof.
  unfold thread_step, leave, lift, weight, in_cs, held.
  destruct t as [g p]; cbn.
  destruct p; cbn; intros Hle Hstep; try done.
  - destruct lk; simplify_eq/=. lia.
  - destruct lk; [|lia].
    destruct (load_stats fl) as [[?|?] ?]; simplify_eq/=; lia.
  - destruct lk; [|lia].
    destruct (update g stats) as [?|?]; simplify_eq/=; lia.
  - destruct lk; [|lia].
    destruct (open_w fl) as [[?|?] ?]; simplify_eq/=; lia.
  - destruct lk; [|lia].
    destruct (json_dump stats fl) as [[?|?] ?]; simplify_eq/=; lia.
  - destruct lk; [|lia].
    destruct (getitem stats g) as [?|?]; simplify_eq/=; lia.
Qed.

Lemma step_exclusive s s' : exclusive s → step s s' → exclusive s'.
Proof.
  intros Hex Hst. destruct Hst as [s i t t' fl' lk' Hi Hstep].
  unfold exclusive, in_cs_count in *. cbn [locked threads].
  pose proof (sum_list_with_insert (weight in_cs) _ i t t' Hi) as Ecs.
  pose proof (sum_list_with_lookup (weight in_cs) _ i t Hi) as Hle.
  destruct (thread_step_lock t (file s) (locked s) t' fl' lk'); [lia|done|].
  lia.
Qed.

Lemma arrive_weight (w : thread → bool) fl fs :
  (∀ f, w (Thread f AtLock) = false) →
  sum_list_with (weight w) (threads (arrive fl fs)) = 0%nat.
Proof.
  intros Hw. cbn. induction fs as [|f fs IH]; cbn; [done|].
  unfold weight at 1. by rewrite Hw.
Qed.

Lemma arrive_exclusive fl fs : exclusive (arrive fl fs).
Proof. unfold exclusive, in_cs_count. by rewrite arrive_weight. Qed.

Lemma reachable_exclusive fl fs s :
  rtc step (arrive fl fs) s → exclusive s.
Proof.
  revert s. apply (rtc_ind_r (R := step) exclusive).
  - apply arrive_exclusive.
  - intros y z _ Hyz Hy. by eapply step_exclusive.
Qed.

(** No deadlock: while a call is unfinished some thread can act. *)
Lemma exclusive_progress s :
  exclusive s → finished s = false → ∃ s', step s s'.
Proof.
  destruct s as [fl lk ts]. unfold exclusive, finished, in_cs_count.
  cbn [file locked threads]. intros Hcs Hfin.
  destruct lk; cbn in Hcs.
  - destruct (sum_list_with_pos (weight in_cs) ts) as (i & t & Hi & Ht);
      [lia|].
    assert (in_cs t = true) as Hin.
    { unfold weight in Ht. destruct (in_cs t); [done|lia]. }
    destruct (thread_step_in_cs t fl true Hin) as [[[t' fl'] lk'] Hstep].
    eexists. by eapply (step_thread (State fl true ts)).
  - destruct (forallb_false_lookup _ _ Hfin) as (i & t & Hi & Ht).
    pose proof (sum_list_with_lookup (weight in_cs) ts i t Hi) as Hle.
    assert (at_pc t = AtLock) as Hpc.
    { rewrite Hcs in Hle. unfold weight, in_cs in Hle. unfold is_done in Ht.
      destruct (at_pc t); try done; lia. }
    eexists. eapply (step_thread (State fl false ts)); [done|].
    unfold thread_step. by rewrite Hpc.
Qed.

Lemma exclusive_terminates s :
  exclusive s → ∃ s', rtc step s s' ∧ finished s' = true.
Proof.
  remember (measure s) as k eqn:Hk. revert s Hk.
  induction (lt_wf k) as [k _ IH]. intros s -> Hex.
  destruct (finished s) eqn:Hfin.
  - exists s. by split.
  - destruct (exclusive_progress s Hex Hfin) as [s1 Hs1].
    destruct (IH (measure s1) (step_measure _ _ Hs1) s1 eq_refl)
      as (s2 & Hs2 & Hfin2); [by eapply step_exclusive|].
    exists s2. split; [|done]. by eapply rtc_l.
Qed.

Lemma done_outside t : is_done t = true → in_cs t = false.
Proof. unfold is_done, in_cs. by destruct (at_pc t). Qed.

Lemma finished_Forall s :
  finished s = true → Forall (λ t, is_done t = true) (threads s).
Proof.
  unfold finished. intros Hfin. apply Forall_forall. intros t Ht.
  apply (proj1 (forallb_forall _ _) Hfin t), list_elem_of_In, Ht.
Qed.

Lemma exclusive_finished s :
  exclusive s → finished s = true → locked s = false.
Proof.
  unfold exclusive, in_cs_count. intros Hex Hfin%finished_Forall.
  rewrite sum_weight_none in Hex.
  - by destruct (locked s).
  - eapply Forall_impl; [done|]. apply done_outside.
Qed.

Lemma nsteps_measure k s s' :
  nsteps step k s s' → (measure s' + k ≤ measure s)%nat.
Proof.
  induction 1 as [|k s1 s2 s3 Hst _ IH]; [lia|].
  pose proof (step_measure _ _ Hst). lia.
Qed.

Lemma measure_arrive fl fs : measure (arrive fl fs) = (6 * length fs)%nat.
Proof.
  unfold measure. cbn [threads arrive].
  induction fs as [|f fs IH]; [done|].
  rewrite fmap_cons. cbn [sum_list_with length]. rewrite IH.
  unfold fuel at 1. cbn. lia.
Qed.

Lemma reachable_filenames fl fs s :
  rtc step (arrive fl fs) s → filename <$> threads s = fs.
Proof.
  revert s. apply (rtc_ind_r (R := step)).
  - cbn. rewrite <- list_fmap_compose. apply list_fmap_id.
  - intros y z _ Hyz Hy. destruct Hyz as [y i t t' fl' lk' Hi Hstep].
    cbn [threads].
    rewrite list_fmap_insert, (thread_step_filename _ _ _ _ _ _ Hstep).
    rewrite list_insert_id; [done|]. by rewrite list_lookup_fmap, Hi.
Qed.

(** *** The counts *)















End requests.

Section corrupt.
Import JSON Counter Threads Requests.

(** With a file that cannot be loaded, a thread gets no further than
    [load_stats]. *)
Lemma step_unloadable e s s' :
  (load_stats (file s)).1 = Raise e
  ∧ Forall (λ t, at_pc t = AtLock ∨ at_pc t = AtLoad ∨ at_pc t = Raised e)
      (threads s) →
  step s s' →
  file s' = file s
  ∧ Forall (λ t, at_pc t = AtLock ∨ at_pc t = AtLoad ∨ at_pc t = Raised e)
      (threads s').
Proof.
  intros [Hfl Hts] Hst. destruct Hst as [s i t t' fl' lk' Hi Hstep].
  cbn [file threads]. pose proof (Forall_lookup_1 _ _ _ _ Hts Hi) as Ht.
  unfold thread_step in Hstep.
  destruct t as [f p]; cbn in Ht, Hstep.
  destruct Ht as [->|[->| ->]]; [| |done].
  - destruct (locked s); simplify_eq/=. split; [done|].
    apply Forall_insert; [done|]. cbn. auto.
  - destruct (load_stats (file s)) as [[v|e'] fl1] eqn:Hl; [done|].
    pose proof (load_stats_frame (file s)) as Hfr. rewrite Hl in Hfr.
    cbn in Hfl, Hfr, Hstep. simplify_eq/=. split; [done|].
    apply Forall_insert; [done|]. cbn. auto.
Qed.

Lemma reachable_unloadable e fl fs s :
  (load_stats fl).1 = Raise e →
  rtc step (arrive fl fs) s →
  file s = fl
  ∧ Forall (λ t, at_pc t = AtLock ∨ at_pc t = AtLoad ∨ at_pc t = Raised e)
      (threads s).
Proof.
  intros Hl. revert s. apply (rtc_ind_r (R := step)).
  - split; [done|]. cbn. apply Forall_fmap, Forall_forall. intros f _.
    cbn. auto.
  - intros y z _ Hyz [Hfl Hts].
    destruct (step_unloadable e y z) as [Hfl' Hts']; [|done|].
    + split; [by rewrite Hfl|done].
    + split; [by rewrite Hfl'|done].
Qed.

End corrupt.



(** Property X12. Whatever is at the path of the stats file, also text
    that cannot be read, and whatever the files asked for: a run of [n]
    concurrent calls of [increment_download] takes at most [6 n] actions;
    at every moment the lock is held exactly when one thread is inside
    the [with] block, and never two; while a call is unfinished some
    thread can act; and when all calls are over, by a return or by an
    exception, the lock is free. *)
Theorem lock_is_exclusive_and_always_released
    (fl : Counter.stats_file) (fs : list string) (k : nat)
    (s : Threads.state) :
  nsteps Threads.step k (Requests.arrive fl fs) s →
  (k ≤ 6 * length fs)%nat
  ∧ Threads.in_cs_count (Threads.threads s)
    = Threads.held (Threads.locked s)
  ∧ (Threads.in_cs_count (Threads.threads s) ≤ 1)%nat
  ∧ (Threads.finished s = false → ∃ s', Threads.step s s')
  ∧ (Threads.finished s = true → Threads.locked s = false)
  ∧ (∃ s', rtc Threads.step s s' ∧ Threads.finished s' = true).
Proof.
  intros Hrun.
  pose proof (nsteps_measure _ _ _ Hrun) as Hm.
  rewrite measure_arrive in Hm.
  pose proof (reachable_exclusive fl fs s (rtc_nsteps_2 _ _ _ Hrun)) as Hex.
  split; [lia|]. split; [exact Hex|]. split.
  { rewrite Hex. unfold Threads.held. destruct (Threads.locked s); lia. }
  split; [by apply exclusive_progress|].
  split; [by apply exclusive_finished|by apply exclusive_terminates].
Qed.

Lemma lock_is_exclusive_and_always_released_witness :
  ∃ s, nsteps Threads.step 3
         (Requests.arrive Counter.Unparseable ["a.h5"; "b.nc"]) s
       ∧ Threads.locked s = true
       ∧ Threads.in_cs_count (Threads.threads s) = 1%nat.
Proof.
  assert (∃ s, nsteps Threads.step 3
                 (Requests.arrive Counter.Unparseable ["a.h5"; "b.nc"]) s
               ∧ Threads.locked s = true) as (s & Hrun & Hlk).
  { eexists. split.
    - unfold Requests.arrive; cbn.
      eapply nsteps_l;
        [eapply (Threads.step_thread _ 1%nat); reflexivity|cbn].
      eapply nsteps_l;
        [eapply (Threads.step_thread _ 1%nat); reflexivity|cbn].
      eapply nsteps_l;
        [eapply (Threads.step_thread _ 0%nat); reflexivity|cbn].
      apply nsteps_O.
    - reflexivity. }
  exists s. split; [exact Hrun|]. split; [exact Hlk|].
  destruct (lock_is_exclusive_and_always_released Counter.Unparseable
              ["a.h5"; "b.nc"] 3 s Hrun) as (_ & Hex & _).
  by rewrite Hex, Hlk.
Defined.

(** Property X13. Once the stats file holds text that is not JSON,
    concurrent calls of [increment_download] do not repair it: whatever
    the schedule, the file stays as it is, no call returns, and when all
    calls are over every one of them has raised [JSONDecodeError]. *)
Theorem concurrent_calls_all_fail_on_unparseable_stats
    (fs : list string) (s : Threads.state) :
  rtc Threads.step (Requests.arrive Counter.Unparseable fs) s →
  Threads.file s = Counter.Unparseable
  ∧ Forall (λ t, Threads.is_returned t = false) (Threads.threads s)
  ∧ (Threads.finished s = true →
     Forall2 (λ f t, t = Threads.Thread f (Threads.Raised JSONDecodeError))
       fs (Threads.threads s)).
Proof.
  intros Hreach.
  destruct (reachable_unloadable JSONDecodeError Counter.Unparseable fs s
              eq_refl Hreach) as [Hfl Hts].
  pose proof (reachable_filenames _ _ _ Hreach) as Hfs.
  split; [done|split].
  - eapply Forall_impl; [exact Hts|]. intros t Ht. cbn beta in Ht.
    unfold Threads.is_returned. by destruct Ht as [->|[->| ->]].
  - intros Hfin%finished_Forall. rewrite <- Hfs.
    apply Forall2_fmap_l, Forall_Forall2_diag, Forall_forall. intros t Ht.
    pose proof (proj1 (Forall_forall _ _) Hts t Ht) as Hpc.
    pose proof (proj1 (Forall_forall _ _) Hfin t Ht) as Hd.
    unfold Threads.is_done in Hd. destruct t as [f p]; cbn in *.
    by destruct Hpc as [->|[->| ->]].
Qed.

Lemma concurrent_calls_all_fail_on_unparseable_stats_witness :
  ∃ s, rtc Threads.step
         (Requests.arrive Counter.Unparseable ["a.h5"; "b.nc"]) s
       ∧ Threads.finished s = true
       ∧ Threads.file s = Counter.Unparseable.
Proof.
  assert (∃ s, rtc Threads.step
                 (Requests.arrive Counter.Unparseable ["a.h5"; "b.nc"]) s
               ∧ Threads.finished s = true) as (s & Hrun & Hfin).
  { eexists. split.
    - unfold Requests.arrive; cbn.
      do 2 schedule 0%nat. do 2 schedule 1%nat. reflexivity.
    - reflexivity. }
  exists s. split; [exact Hrun|]. split; [exact Hfin|].
  by destruct (concurrent_calls_all_fail_on_unparseable_stats
                 ["a.h5"; "b.nc"] s Hrun) as [Hfl _].
Defined.

(** ** The summary route *)

Section summary.
Import Summarize.

Lemma wait_exponential_clamped multiplier min max n :
  0 ≤ min ≤ max →
  min ≤ wait_exponential multiplier min max n ≤ max.
Proof. unfold wait_exponential. lia. Qed.

(** The first two waits of [call_gemini] are at the minimum. *)
Lemma wait_first_two n : 1 ≤ n ≤ 2 → wait_exponential 1 4 10 n = 4.
Proof.
  intros Hn. assert (n = 1 ∨ n = 2) as [-> | ->] by lia; reflexivity.
Qed.

(** [retry] unrolled for a client that is configured. *)
Lemma call_gemini_client fuel gen prompt w :
  (3 ≤ fuel)%nat →
  let n := length (prompts w) in
  call_gemini fuel (Some gen) prompt w
  = match gen n prompt with
    | Text s => Some (inl s, World (prompts w ++ [prompt]) (sleeps w))
    | Fails _ =>
        match gen (S n) prompt with
        | Text s =>
            Some (inl s, World (prompts w ++ [prompt; prompt])
                           (sleeps w ++ [4]))
        | Fails _ =>
            match gen (S (S n)) prompt with
            | Text s =>
                Some (inl s, World (prompts w ++ [prompt; prompt; prompt])
                               (sleeps w ++ [4; 4]))
            | Fails e =>
                Some (inr (RetryError e),
                      World (prompts w ++ [prompt; prompt; prompt])
                        (sleeps w ++ [4; 4]))
            end
        end
    end.
Proof.
  intros Hfuel n. destruct fuel as [|[|[|fuel]]]; try lia.
  unfold call_gemini. cbn [retry]. unfold generate_content.
  cbn [prompts sleeps]. rewrite !length_app. cbn [length]. fold n.
  replace (n + 1 + 1)%nat with (S (S n)) by lia.
  replace (n + 1)%nat with (S n) by lia.
  rewrite <- !app_assoc. cbn [app].
  change (stop_after_attempt 3 1) with false.
  change (stop_after_attempt 3 (1 + 1)) with false.
  change (stop_after_attempt 3 (1 + 1 + 1)) with true.
  change (wait_exponential 1 4 10 1) with 4.
  change (wait_exponential 1 4 10 (1 + 1)) with 4.
  destruct (gen n prompt) as [s|e1]; [done|].
  destruct (gen (S n) prompt) as [s|e2]; [done|].
  by destruct (gen (S (S n)) prompt) as [s|e3].
Qed.

End summary.

(** Property X14. [summarize] always answers, and it reaches Gemini
    exactly when the request has a description that Python takes as true
    and an API key is configured: for a description that is missing or
    falsy (empty text, [null], [0], [false], an empty list or object) it
    answers 200 with a fixed text, without an API key it answers 200 with
    the notice of [call_gemini], and in these two cases only no prompt is
    sent and nothing is slept. *)
Theorem summarize_reaches_gemini_only_with_description_and_key
    (str : JSON.json → string) (fuel : nat)
    (model_gemini : option Summarize.client)
    (data : gmap string JSON.json) (w : Summarize.world) :
  (3 ≤ fuel)%nat →
  let description :=
    Summarize.get data "description" (JSON.JStr EmptyString) in
  ∃ (resp : Summarize.response) (w' : Summarize.world),
    Summarize.summarize str fuel model_gemini data w = Some (resp, w')
    ∧ (w' = w
       ↔ Summarize.truthy description = false ∨ model_gemini = None)
    ∧ (Summarize.truthy description = false →
       resp = Summarize.Response 200
                (Summarize.Summary "No description available to summarize."))
    ∧ (Summarize.truthy description = true → model_gemini = None →
       resp = Summarize.Response 200
                (Summarize.Summary "Gemini API key not configured.")).
Proof.
  intros Hfuel description. unfold Summarize.summarize. fold description.
  destruct (Summarize.truthy description) eqn:Hd; cbn [negb].
  2:{ eexists _, w. split; [done|]. split; [|done]. split; auto. }
  destruct model_gemini as [gen|].
  2:{ destruct fuel as [|fuel]; [lia|]. eexists _, w.
      split; [reflexivity|]. split; [|done]. split; auto. }
  assert (∀ (l : list string) sl,
            l ≠ [] →
            Summarize.World (Summarize.prompts w ++ l) sl = w
            ↔ true = false ∨ Some gen = None) as Hne.
  { intros l sl Hl. split; [|by intros [?|?]].
    intros Hw. apply (f_equal Summarize.prompts) in Hw. cbn in Hw.
    apply (f_equal length) in Hw. rewrite length_app in Hw.
    destruct l; [done|]. cbn in Hw. lia. }
  rewrite call_gemini_client by done.
  destruct (gen _ _); [eexists _, _; split; [done|]; split; [by apply Hne|done]|].
  destruct (gen _ _); [eexists _, _; split; [done|]; split; [by apply Hne|done]|].
  destruct (gen _ _); eexists _, _; (split; [done|]; split; [by apply Hne|done]).
Qed.

Lemma summarize_reaches_gemini_only_with_description_and_key_witness :
  ∃ resp,
    Summarize.summarize (λ _, "?") 3
      (Some (λ _ _, Summarize.Fails "quota"))
      {["file" := JSON.JStr "a.h5";
        "description" := JSON.JList []]}
      (Summarize.World [] [])
    = Some (resp, Summarize.World [] [])
    ∧ Summarize.status resp = 200.
Proof.
  destruct (summarize_reaches_gemini_only_with_description_and_key
              (λ _, "?") 3 (Some (λ _ _, Summarize.Fails "quota"))
              {["file" := JSON.JStr "a.h5";
                "description" := JSON.JList []]}
              (Summarize.World [] []))
    as (resp & w' & Hrun & Hw & Hresp & _); [lia|].
  exists resp. rewrite Hrun.
  rewrite (proj2 Hw) by (left; reflexivity).
  rewrite (Hresp eq_refl). split; reflexivity.
Defined.

(** Property X15. With a description and a configured client, [summarize]
    always answers, after at most three calls of Gemini, all with the same
    prompt, and with a sleep of 4 seconds between two attempts and none
    after the last (so at most 8 seconds in all): it answers 200 with the
    text of the first attempt that succeeds, and 500, wrapping the
    exception of the third attempt, exactly when all three fail. *)
Theorem summarize_retries_at_most_three_times
    (str : JSON.json → string) (fuel : nat) (gen : Summarize.client)
    (data : gmap string JSON.json) (w : Summarize.world) :
  Summarize.truthy
    (Summarize.get data "description" (JSON.JStr EmptyString)) = true →
  (3 ≤ fuel)%nat →
  let prompt :=
    Summarize.prompt_of str
      (Summarize.get data "file" (JSON.JStr "Unknown File"))
      (Summarize.get data "description" (JSON.JStr EmptyString)) in
  let n := length (Summarize.prompts w) in
  ∃ (resp : Summarize.response) (w' : Summarize.world) (k : nat),
    Summarize.summarize str fuel (Some gen) data w = Some (resp, w')
    ∧ (1 ≤ k ≤ 3)%nat
    ∧ Summarize.prompts w' = Summarize.prompts w ++ replicate k prompt
    ∧ Summarize.sleeps w' = Summarize.sleeps w ++ replicate (k - 1) 4
    ∧ (∀ i, (i < k - 1)%nat → ∃ e, gen (n + i)%nat prompt = Summarize.Fails e)
    ∧ match gen (n + (k - 1))%nat prompt with
      | Summarize.Text s =>
          resp = Summarize.Response 200 (Summarize.Summary s)
      | Summarize.Fails e =>
          k = 3%nat
          ∧ resp = Summarize.Response 500
                     (Summarize.ErrorSummary (Summarize.RetryError e))
      end.
Proof.
  intros Hd Hfuel prompt n. unfold Summarize.summarize. rewrite Hd.
  cbn [negb]. fold prompt. rewrite call_gemini_client by done. fold n.
  destruct (gen n prompt) as [s1|e1] eqn:H1.
  { exists (Summarize.Response 200 (Summarize.Summary s1)), 
      (Summarize.World (Summarize.prompts w ++ [prompt]) (Summarize.sleeps w)),
      1%nat.
    cbn [replicate Nat.sub Summarize.prompts Summarize.sleeps].
    rewrite app_nil_r, Nat.add_0_r, H1.
    repeat split; try done; try lia; intros i Hi; lia. }
  destruct (gen (S n) prompt) as [s2|e2] eqn:H2.
  { exists (Summarize.Response 200 (Summarize.Summary s2)),
      (Summarize.World (Summarize.prompts w ++ [prompt; prompt])
         (Summarize.sleeps w ++ [4])), 2%nat.
    cbn [replicate Nat.sub Summarize.prompts Summarize.sleeps].
    replace (n + 1)%nat with (S n) by lia. rewrite H2.
    repeat split; try done; try lia.
    intros i Hi. assert (i = 0%nat) as -> by lia.
    rewrite Nat.add_0_r, H1. eauto. }
  exists (match gen (S (S n)) prompt with
          | Summarize.Text s => Summarize.Response 200 (Summarize.Summary s)
          | Summarize.Fails e =>
              Summarize.Response 500
                (Summarize.ErrorSummary (Summarize.RetryError e))
          end),
    (Summarize.World (Summarize.prompts w ++ [prompt; prompt; prompt])
       (Summarize.sleeps w ++ [4; 4])), 3%nat.
  cbn [replicate Nat.sub Summarize.prompts Summarize.sleeps].
  replace (n + 2)%nat with (S (S n)) by lia.
  split; [by destruct (gen (S (S n)) prompt)|].
  repeat split; try done; try lia.
  - intros i Hi. assert (i = 0 ∨ i = 1)%nat as [-> | ->] by lia.
    + rewrite Nat.add_0_r, H1. eauto.
    + replace (n + 1)%nat with (S n) by lia. rewrite H2. eauto.
  - by destruct (gen (S (S n)) prompt).
Qed.

Lemma summarize_retries_at_most_three_times_witness :
  ∃ resp w',
    Summarize.summarize (λ _, "?") 5
      (Some (λ n _, if (n <? 2)%nat then Summarize.Fails "busy"
                    else Summarize.Text "A NetCDF grid."))
      {["description" := JSON.JStr "File: sst.nc"]}
      (Summarize.World [] [])
    = Some (resp, w')
    ∧ length (Summarize.prompts w') = 3%nat
    ∧ Summarize.sleeps w' = [4; 4]
    ∧ resp = Summarize.Response 200 (Summarize.Summary "A NetCDF grid.").
Proof.
  destruct (summarize_retries_at_most_three_times (λ _, "?") 5
              (λ n _, if (n <? 2)%nat then Summarize.Fails "busy"
                      else Summarize.Text "A NetCDF grid.")
              {["description" := JSON.JStr "File: sst.nc"]}
              (Summarize.World [] []))
    as (resp & w' & k & Hrun & Hk & Hp & Hs & Hfail & Hlast);
    [reflexivity|lia|].
  assert (k = 3%nat) as ->.
  { destruct k as [|[|[|k]]]; [lia| | |lia].
    - cbn in Hlast. by destruct Hlast as [Hk3 _].
    - cbn in Hlast. by destruct Hlast as [Hk3 _]. }
  exists resp, w'. split; [exact Hrun|]. split.
  { rewrite Hp. cbn. reflexivity. }
  split; [exact Hs|]. exact Hlast.
Defined.

(** ** The location of a dataset *)

Section locations.
Import Py Locations.

Lemma startswith_spec key s :
  startswith key s = true ↔ ∃ post, s = (key ++ post)%string.
Proof.
  revert s. induction key as [|a key IH]; intros s; cbn.
  { split; [by exists s|done]. }
  destruct s as [|b s].
  { split; [done|]. by intros [post Hpost]. }
  rewrite andb_true_iff, IH. split.
  - intros [Hab [post ->]]. apply Ascii.eqb_eq in Hab as ->. by exists post.
  - intros [post [= -> ->]]. split; [apply Ascii.eqb_refl|by exists post].
Qed.

(** [contains] is the substring test. *)
Lemma contains_spec key s :
  contains key s = true ↔ ∃ pre post, s = (pre ++ key ++ post)%string.
Proof.
  induction s as [|b s IH]; cbn [contains]; rewrite orb_true_iff.
  - rewrite startswith_spec. split.
    + intros [[post Hpost]|?]; [|done]. by exists EmptyString, post.
    + intros (pre & post & Hs). left. destruct pre; [|done]. by exists post.
  - rewrite startswith_spec, IH. split.
    + intros [[post Hpost]|(pre & post & ->)].
      * by exists EmptyString, post.
      * by exists (String b pre), post.
    + intros ([|c pre] & post & Hs); cbn in Hs.
      * left. by exists post.
      * right. injection Hs as -> ->. by exists pre, post.
Qed.

Lemma first_match_cases table filename :
  (Forall (λ item : string * location, contains item.1 filename = false)
     table
   ∧ first_match table filename
     = Location (PInt 0) (PInt 0) "Unknown location")
  ∨ (∃ key loc, (key, loc) ∈ table ∧ contains key filename = true
                ∧ first_match table filename = loc).
Proof.
  induction table as [|[key loc] table IH]; cbn [first_match].
  { left. by split. }
  destruct (contains key filename) eqn:Hk.
  - right. exists key, loc. split; [left|done].
  - destruct IH as [[Hall Hf]|(key' & loc' & Hin & Hk' & Hf)].
    + left. split; [by constructor|done].
    + right. exists key', loc'. split; [by right|done].
Qed.

End locations.

(** Property X16. For every file name [get_location] returns coordinates
    on the globe (latitude within 90 degrees, longitude within 180); it
    answers ["Unknown location"] exactly when no key of [KNOWN_LOCATIONS]
    occurs in the name, and that answer is the only one at latitude and
    longitude 0, so a dataset at the origin is an unlocated one. *)
Theorem get_location_on_the_globe_and_origin_is_unknown (filename : string) :
  let loc := Locations.get_location filename in
  (∃ la lo,
     Locations.number (Locations.lat loc) = Some la
     ∧ Locations.number (Locations.lon loc) = Some lo
     ∧ (-90 <= la)%Q ∧ (la <= 90)%Q ∧ (-180 <= lo)%Q ∧ (lo <= 180)%Q)
  ∧ (Locations.label loc = "Unknown location"
     ↔ ¬ ∃ key pre post,
           key ∈ Locations.KNOWN_LOCATIONS.*1
           ∧ filename = (pre ++ key ++ post)%string)
  ∧ (Locations.label loc = "Unknown location"
     ↔ ∃ la lo,
         Locations.number (Locations.lat loc) = Some la
         ∧ Locations.number (Locations.lon loc) = Some lo
         ∧ (la == 0)%Q ∧ (lo == 0)%Q).
Proof.
  cbn zeta. unfold Locations.get_location.
  destruct (first_match_cases Locations.KNOWN_LOCATIONS filename)
    as [[Hall ->]|(key & loc & Hin & Hk & ->)].
  - split; [|split].
    + exists 0%Q, 0%Q. by repeat split.
    + split; [|done]. intros _ (key & pre & post & Hkey & Hf).
      apply list_elem_of_fmap in Hkey as ([key' loc] & -> & Hin).
      pose proof (proj1 (Forall_forall _ _) Hall _ Hin) as Hc. cbn in Hc.
      assert (Locations.contains key' filename = true) as Ht
        by (apply contains_spec; eauto).
      congruence.
    + split; [|done]. intros _. exists 0%Q, 0%Q. by repeat split.
  - assert (∃ pre post, filename = (pre ++ key ++ post)%string) as Hsub
      by by apply contains_spec.
    assert (key ∈ Locations.KNOWN_LOCATIONS.*1) as Hkey.
    { apply list_elem_of_fmap. by exists (key, loc). }
    assert (¬ ¬ ∃ key pre post,
                  key ∈ Locations.KNOWN_LOCATIONS.*1
                  ∧ filename = (pre ++ key ++ post)%string) as Hnn.
    { intros Hn. apply Hn. destruct Hsub as (pre & post & Hf).
      by exists key, pre, post. }
    clear Hk Hsub Hkey.
    unfold Locations.KNOWN_LOCATIONS in Hin.
    repeat (apply elem_of_cons in Hin as [[= -> ->]|Hin]);
      [..|by apply elem_of_nil in Hin];
      (split; [|split];
       [ eexists _, _; cbn; repeat split; try reflexivity; by vm_compute
       | split; [done|tauto]
       | split; [done|];
         intros (la & lo & [= <-] & [= <-] & Hla & Hlo);
         by vm_compute in Hla, Hlo ]).
Qed.
